(** * SMS gateway: connectivity monitor, command executor, modem driver

    A shallow embedding of the programs of the repository and the
    properties proved about them:

    - [Monitor]  : [network_monitor.py], the poll loop that tracks the
                   failure streak and the outage flag and dispatches the
                   alert, reminder and clear scripts;
    - [Executor] : [core/commands.py], [core/config.py] and
                   [core/executor.py], the whitelist and [SafeExecutor];
    - [Modem]    : [send_reminder_sms.py], the AT dialogue that sends one
                   text to a list of recipients;
    - [Gateway]  : [core/middleware.py] and [api/routes/commands.py], the
                   key and address check and the route to the executor.

    Conventions.  Python [int] is [Z].  Python [bytes] is [string], and a
    Python [str] is the [string] of its utf-8 bytes (so the two pictographs
    of the log lines are spelled by their bytes).  The codecs of the modem
    script are in [Codec]: the strict ascii encoding of a command fails on a
    byte above 127, and the bytes read from the line are decoded leaving out
    what is not utf-8.  [strip], [lower] and the two patterns work on the
    ASCII classes of white space, letters and digits.
    Everything the programs obtain from outside (ping results, child
    processes, the serial line, clocks) is an explicit oracle argument, and
    everything they do to the outside is an event of a trace, in program
    order.  Clock readings and sleep durations (Python floats) are
    rationals.  A serial port that opened does not raise afterwards. *)

From Stdlib Require Import ZArith QArith String Ascii List DecimalString.
From stdpp Require Import gmap strings list.

Open Scope string_scope.
Open Scope list_scope.
Open Scope Z_scope.

(** ** Text helpers shared by the three programs *)

Module Text.

(** [w in txt] on Python strings. *)
Fixpoint str_in (w txt : string) : bool :=
  String.prefix w txt ||
  match txt with
  | EmptyString => false
  | String _ rest => str_in w rest
  end.

(** [str(n)] for an integer. *)
Definition str_Z (n : Z) : string := NilZero.string_of_int (Z.to_int n).

(** [c.isspace()], also the pattern class \s: tab to carriage return, the
    four separators 28..31 and the space. *)
Definition isspace (c : ascii) : bool :=
  let n := Z.of_nat (nat_of_ascii c) in
  ((9 <=? n) && (n <=? 13)) || ((28 <=? n) && (n <=? 32)).

(** [c.isdigit()], also the pattern class \d. *)
Definition isdigit (c : ascii) : bool :=
  let n := Z.of_nat (nat_of_ascii c) in (48 <=? n) && (n <=? 57).

Fixpoint lstrip (s : string) : string :=
  match s with
  | EmptyString => EmptyString
  | String c rest => if isspace c then lstrip rest else s
  end.

Fixpoint rstrip (s : string) : string :=
  match s with
  | EmptyString => EmptyString
  | String c rest =>
      match rstrip rest with
      | EmptyString => if isspace c then EmptyString else String c EmptyString
      | r => String c r
      end
  end.

(** [s.strip()]. *)
Definition strip (s : string) : string := rstrip (lstrip s).

(** The white space outside ASCII, by its utf-8 bytes: U+0085 and U+00A0 in
    two bytes; U+1680, U+2000 to U+200A, U+2028, U+2029, U+202F, U+205F and
    U+3000 in three. *)
Definition space2 (a b : ascii) : bool :=
  let '(a, b) := (Z.of_nat (nat_of_ascii a), Z.of_nat (nat_of_ascii b)) in
  (a =? 194) && ((b =? 133) || (b =? 160)).

Definition space3 (a b c : ascii) : bool :=
  let '(a, b, c) :=
    (Z.of_nat (nat_of_ascii a), Z.of_nat (nat_of_ascii b), Z.of_nat (nat_of_ascii c)) in
  ((a =? 225) && (b =? 154) && (c =? 128))
  || ((a =? 226) && (b =? 128)
      && (((128 <=? c) && (c <=? 138)) || (c =? 168) || (c =? 169) || (c =? 175)))
  || ((a =? 226) && (b =? 129) && (c =? 159))
  || ((a =? 227) && (b =? 128) && (c =? 128)).

(** A run that ended: it counts when it is not empty. *)
Definition close_run (cur : string) (others : list string) : list string :=
  match cur with
  | EmptyString => others
  | _ => cur :: others
  end.

(** [s.split()]: the maximal runs of characters that are not white space;
    [cur] is the run being read. *)
Fixpoint split_ws (s cur : string) : list string :=
  match s with
  | EmptyString => close_run cur []
  | String c rest =>
      if isspace c then close_run cur (split_ws rest EmptyString)
      else
        match rest with
        | String c2 r2 =>
            if space2 c c2 then close_run cur (split_ws r2 EmptyString)
            else
              match r2 with
              | String c3 r3 =>
                  if space3 c c2 c3 then close_run cur (split_ws r3 EmptyString)
                  else split_ws rest (cur +:+ String c EmptyString)
              | EmptyString => split_ws rest (cur +:+ String c EmptyString)
              end
        | EmptyString => split_ws rest (cur +:+ String c EmptyString)
        end
  end.

(** [sep.join(l)]. *)
Fixpoint join (sep : string) (l : list string) : string :=
  match l with
  | [] => EmptyString
  | [x] => x
  | x :: rest => x +:+ sep +:+ join sep rest
  end.

(** The longest prefix of digits. *)
Fixpoint take_digits (s : string) : string :=
  match s with
  | EmptyString => EmptyString
  | String c rest => if isdigit c then String c (take_digits rest) else EmptyString
  end.

(** [s[n:]]. *)
Fixpoint skip (n : nat) (s : string) : string :=
  match n, s with
  | O, _ => s
  | S k, String _ rest => skip k rest
  | S _, EmptyString => EmptyString
  end.

(** [c.lower()]. *)
Definition lower_char (c : ascii) : ascii :=
  let n := Z.of_nat (nat_of_ascii c) in
  if (65 <=? n) && (n <=? 90) then ascii_of_nat (nat_of_ascii c + 32) else c.

Fixpoint lower (s : string) : string :=
  match s with
  | EmptyString => EmptyString
  | String c rest => String (lower_char c) (lower rest)
  end.

End Text.

(** Log levels of the [logging] module; [EXCEPTION] is [logger.exception]. *)
Inductive level := DEBUG | INFO | WARNING | ERROR | EXCEPTION.

(** ** network_monitor.py *)

Module Monitor.
Import Text.

(** The values [main] reads from [load_config]. *)
Record config := {
  router_ip : string;
  internet_ip : string;
  check_interval : Z;
  ping_count : Z;
  failure_threshold : Z;
  reminder_interval : Z;
  alert_power_script : string;
  alert_network_script : string;
  reminder_script : string;
  clear_script : string
}.

(** [DEFAULTS], after the numeric casts of [load_config]. *)
Definition DEFAULTS : config := {|
  router_ip := "172.168.133.1";
  internet_ip := "8.8.8.8";
  check_interval := 30;
  ping_count := 4;
  failure_threshold := 4;
  reminder_interval := 300;
  alert_power_script := "send_alert_power_sms.py";
  alert_network_script := "send_alert_network_sms.py";
  reminder_script := "send_reminder_sms.py";
  clear_script := "send_clear_sms.py"
|}.

(** What the loop does to the outside world. *)
Inductive event :=
| Ping (ip : string) (count : Z)      (* subprocess.run(["ping","-c",count,"-W","2",ip]) *)
| Exec (script : string)              (* subprocess.run([sys.executable, script_path]) *)
| Log (lvl : level) (msg : string)
| Sleep (secs : Z).

(** What [subprocess.run] of ping does: it returns with an exit status or raises. *)
Inductive ping_outcome :=
| PingExit (returncode : Z)
| PingRaises (e : string).

(** What [run_script] meets: no file, a finished child, or an exception
    (among them the 120 s [TimeoutExpired]). *)
Inductive script_outcome :=
| ScriptMissing
| ScriptExit (returncode : Z) (stdout stderr : string)
| ScriptRaises (e : string).

(** The variables of [main] that live across iterations. *)
Record state := {
  failure_streak : Z;
  in_outage : bool;
  last_reminder_monotonic : Q
}.

Definition initial : state :=
  {| failure_streak := 0; in_outage := false; last_reminder_monotonic := 0%Q |}.

(** The outside world during one iteration: the primary ping, the router
    ping (consulted only if the loop issues it), the script run (at most one
    per iteration) and the first and second reading of [time.monotonic()]. *)
Record tick_env := {
  primary : ping_outcome;
  router : ping_outcome;
  script : script_outcome;
  mono : Q;
  mono_again : Q
}.

Definition run_ping (ip : string) (count : Z) (o : ping_outcome) : bool * list event :=
  match o with
  | PingExit rc => (rc =? 0, [Ping ip count])
  | PingRaises e => (false, [Ping ip count; Log EXCEPTION ("Ping command error: " +:+ e)])
  end.

Section Paths.

(** [(BASE_DIR / script_name).resolve()], rendered as text. *)
Variable script_path : string -> string.

Definition run_script (script_name : string) (o : script_outcome) : list event :=
  match o with
  | ScriptMissing => [Log ERROR ("Script not found: " +:+ script_path script_name)]
  | ScriptExit rc out err =>
      Exec (script_path script_name) ::
      (if rc =? 0
       then [Log INFO ("Executed " +:+ script_name +:+ " successfully.")]
       else [Log ERROR (script_name +:+ " failed with code " +:+ str_Z rc +:+ ". "
                        +:+ "stdout: " +:+ strip out +:+ " stderr: " +:+ strip err)])
  | ScriptRaises e =>
      [Exec (script_path script_name);
       Log EXCEPTION ("Error running " +:+ script_name +:+ ": " +:+ e)]
  end.

(** The body of the [while] loop, up to (not including) the final sleep. *)
Definition tick (cfg : config) (env : tick_env) (st : state) : state * list event :=
  let '(ok, ev_primary) := run_ping (internet_ip cfg) (ping_count cfg) (primary env) in
  if ok then
    if in_outage st then
      ({| failure_streak := 0; in_outage := false;
          last_reminder_monotonic := last_reminder_monotonic st |},
       ev_primary ++ run_script (clear_script cfg) (script env)
       ++ [Log INFO "Connectivity restored (internet reachable); cleared outage state."])
    else
      ({| failure_streak := 0; in_outage := in_outage st;
          last_reminder_monotonic := last_reminder_monotonic st |},
       ev_primary)
  else
    let streak := failure_streak st + 1 in
    let ev_warn :=
      [Log WARNING ("Primary ping FAILED (" +:+ str_Z streak +:+ "/"
                    +:+ str_Z (failure_threshold cfg) +:+ ") to " +:+ internet_ip cfg +:+ ".")] in
    if negb (in_outage st) && (failure_threshold cfg <=? streak) then
      let '(router_ok, ev_router) := run_ping (router_ip cfg) 1 (router env) in
      let ev_alert :=
        if router_ok
        then run_script (alert_network_script cfg) (script env)
             ++ [Log ERROR "Network-only outage detected (router reachable, internet not). Alerted network."]
        else run_script (alert_power_script cfg) (script env)
             ++ [Log ERROR "Power/network outage detected (router unreachable). Alerted power."] in
      ({| failure_streak := streak; in_outage := true;
          last_reminder_monotonic := mono env |},
       ev_primary ++ ev_warn ++ ev_router ++ ev_alert)
    else if in_outage st then
      if Qle_bool (inject_Z (reminder_interval cfg))
                  (mono env - last_reminder_monotonic st)%Q
      then
        ({| failure_streak := streak; in_outage := in_outage st;
            last_reminder_monotonic := mono_again env |},
         ev_primary ++ ev_warn ++ run_script (reminder_script cfg) (script env)
         ++ [Log WARNING "Reminder sent during outage (internet still unreachable)."])
      else
        ({| failure_streak := streak; in_outage := in_outage st;
            last_reminder_monotonic := last_reminder_monotonic st |},
         ev_primary ++ ev_warn)
    else
      ({| failure_streak := streak; in_outage := in_outage st;
          last_reminder_monotonic := last_reminder_monotonic st |},
       ev_primary ++ ev_warn).

(** The [while not stop_flag["stop"]] loop over the iterations that ran
    before the stop flag was seen: each is a [tick] and a sleep. *)
Fixpoint main_loop (cfg : config) (envs : list tick_env) (st : state)
  : state * list event :=
  match envs with
  | [] => (st, [])
  | env :: rest =>
      let '(st1, ev) := tick cfg env st in
      let '(st2, evs) := main_loop cfg rest st1 in
      (st2, ev ++ [Sleep (check_interval cfg)] ++ evs)
  end.

(** The state at the start of every iteration, and after the last one. *)
Fixpoint states (cfg : config) (envs : list tick_env) (st : state) : list state :=
  st :: match envs with
        | [] => []
        | env :: rest => states cfg rest (fst (tick cfg env st))
        end.

End Paths.

(** Observations on a trace. *)
Definition pings (tr : list event) : list (string * Z) :=
  omap (fun e => match e with Ping ip n => Some (ip, n) | _ => None end) tr.

Definition execs (tr : list event) : list string :=
  omap (fun e => match e with Exec s => Some s | _ => None end) tr.

(** The primary target was reachable in this iteration. *)
Definition reachable (cfg : config) (env : tick_env) : bool :=
  fst (run_ping (internet_ip cfg) (ping_count cfg) (primary env)).

End Monitor.

(** ** core/config.py, core/commands.py, core/executor.py, api/routes/commands.py *)

Module Executor.
Import Text.

(** The execution settings of [Settings]. *)
Record Settings := {
  MAX_CONCURRENT_EXECUTIONS : Z;
  DEFAULT_TIMEOUT : Z;
  MAX_TIMEOUT : Z
}.

(** The class defaults, used when the environment overrides nothing. *)
Definition settings : Settings :=
  {| MAX_CONCURRENT_EXECUTIONS := 3; DEFAULT_TIMEOUT := 30; MAX_TIMEOUT := 120 |}.

(** Argument values of a request and the types a schema can ask for. *)
Inductive pyvalue :=
| VNone
| VBool (b : bool)
| VInt (n : Z)
| VStr (s : string).

Inductive pytype := TBool | TInt | TStr.

(** [isinstance(v, t)]; [bool] is a subclass of [int]. *)
Definition isinstance (v : pyvalue) (t : pytype) : bool :=
  match v, t with
  | VBool _, TBool | VBool _, TInt | VInt _, TInt | VStr _, TStr => true
  | _, _ => false
  end.

(** [str(v)]. *)
Definition str_value (v : pyvalue) : string :=
  match v with
  | VNone => "None"
  | VBool true => "True"
  | VBool false => "False"
  | VInt n => str_Z n
  | VStr s => s
  end.

(** A [dict] with string keys, in insertion order. *)
Definition pydict (A : Type) := list (string * A).

Fixpoint dict_get {A} (k : string) (d : pydict A) : option A :=
  match d with
  | [] => None
  | (k', v) :: rest => if String.eqb k k' then Some v else dict_get k rest
  end.

Record CommandDefinition := {
  name : string;
  script_path : string;
  description : string;
  timeout_default : Z;
  args_schema : pydict pytype
}.

(** [CommandDefinition.validate_args]. *)
Definition validate_args (cmd : CommandDefinition) (args : pydict pyvalue) : bool :=
  match args_schema cmd with
  | [] => (length args =? 0)%nat
  | schema =>
      forallb (fun '(key, expected_type) =>
                 match dict_get key args with
                 | Some v => isinstance v expected_type
                 | None => true
                 end) schema
  end.

(** [CommandRegistry._commands]. *)
Abbreviation registry := (gmap string CommandDefinition).

(** The whitelist of [_initialize_commands], for a scripts directory. *)
Definition whitelist (scripts_dir : string) : list CommandDefinition :=
  [ {| name := "send_alert_power";
       script_path := scripts_dir +:+ "/send_alert_power_sms.py";
       description := "Send power outage alert SMS to configured recipients";
       timeout_default := 60; args_schema := [] |};
    {| name := "send_alert_network";
       script_path := scripts_dir +:+ "/send_alert_network_sms.py";
       description := "Send network outage alert SMS to configured recipients";
       timeout_default := 60; args_schema := [] |};
    {| name := "send_reminder";
       script_path := scripts_dir +:+ "/send_reminder_sms.py";
       description := "Send reminder SMS about ongoing outage";
       timeout_default := 60; args_schema := [] |};
    {| name := "send_clear";
       script_path := scripts_dir +:+ "/send_clear_sms.py";
       description := "Send clear/recovery SMS notification";
       timeout_default := 60; args_schema := [] |} ].

(** [_initialize_commands]: every script must exist, else the error text of
    the [FileNotFoundError]. *)
Fixpoint register_all (exists_ : string -> bool) (commands : list CommandDefinition)
  (reg : registry) : string + registry :=
  match commands with
  | [] => inr reg
  | cmd :: rest =>
      if exists_ (script_path cmd)
      then register_all exists_ rest (<[name cmd := cmd]> reg)
      else inl ("Script for command '" +:+ name cmd +:+ "' not found: " +:+ script_path cmd)
  end.

Definition initialize_commands (scripts_dir : string) (exists_ : string -> bool)
  : string + registry :=
  register_all exists_ (whitelist scripts_dir) ∅.

Definition get_command (reg : registry) (nm : string) : option CommandDefinition :=
  reg !! nm.

Definition is_valid_command (reg : registry) (nm : string) : bool :=
  bool_decide (is_Some (reg !! nm)).

Definition validate_command_args (reg : registry) (nm : string) (args : pydict pyvalue)
  : bool * option string :=
  match get_command reg nm with
  | None => (false, Some ("Command '" +:+ nm +:+ "' not found"))
  | Some cmd =>
      if negb (validate_args cmd args)
      then (false, Some ("Invalid arguments for command '" +:+ nm +:+ "'"))
      else (true, None)
  end.

Record ExecutionResult := {
  success : bool;
  stdout : string;
  stderr : string;
  exit_code : Z;
  duration_ms : Z;
  started_at : Z;
  completed_at : Z;
  error_message : option string
}.

(** [SafeExecutor._validate_timeout]. *)
Definition _validate_timeout (s : Settings) (timeout : Z) : Z :=
  if timeout <? 1 then DEFAULT_TIMEOUT s
  else if timeout >? MAX_TIMEOUT s then MAX_TIMEOUT s
  else timeout.

(** [SafeExecutor._build_command]: the interpreter, the resolved script and
    a [--key value] pair per argument. *)
Definition _build_command (sys_executable : string) (resolve : string -> string)
  (cmd_def : CommandDefinition) (args : pydict pyvalue) : list string :=
  [sys_executable; resolve (script_path cmd_def)]
  ++ concat (map (fun '(key, value) => ["--" +:+ key; str_value value]) args).

(** What the executor does to the outside world. *)
Inductive event :=
| Log (lvl : level) (msg : string)
| Acquire                                         (* self._semaphore.acquire() *)
| Release                                         (* self._semaphore.release() *)
| Spawn (argv : list string) (env : pydict string) (* create_subprocess_exec *)
| WaitFor (timeout : Z)                           (* wait_for(process.communicate(), timeout) *)
| Kill                                            (* process.kill() *)
| Wait.                                           (* await process.wait() *)

(** How the bounded wait on the child ends; the output is the captured
    data after [decode('utf-8', errors='replace')]. *)
Inductive comm_outcome :=
| Completed (stdout_data stderr_data : string) (returncode : Z)
| TimedOut
| CommRaises (e : string).

(** The outside world of one call.  Times are milliseconds since the epoch;
    an error field is [Some e] when the call raises [Exception(e)]. *)
Record world := {
  now_started : Z;
  now_completed : Z;
  semaphore_locked : bool;
  sys_executable : string;
  home : string;
  resolve : string -> string;
  spawn_error : option string;
  comm : comm_outcome;
  kill_error : option string;
  wait_error : option string
}.

Definition child_env (w : world) : pydict string :=
  [("PATH", "/usr/local/bin:/usr/bin:/bin"); ("HOME", home w); ("LANG", "en_US.UTF-8")].

(** The early returns of [execute_command], before any process exists. *)
Definition rejected (w : world) (msg : option string) : ExecutionResult :=
  {| success := false; stdout := ""; stderr := ""; exit_code := -1;
     duration_ms := 0; started_at := now_started w; completed_at := now_started w;
     error_message := msg |}.

(** The body of [async with self.limiter], after the spawn succeeded. *)
Definition supervise (w : world) (command_name request_id : string) (exec_timeout : Z)
  : ExecutionResult * list event :=
  let tag := "[" +:+ request_id +:+ "] " in
  let duration := now_completed w - now_started w in
  match comm w with
  | TimedOut =>
      let teardown :=
        match kill_error w with
        | Some e => [Kill; Log EXCEPTION (tag +:+ "Error killing timed-out process: " +:+ e)]
        | None =>
            match wait_error w with
            | Some e =>
                [Kill; Wait; Log EXCEPTION (tag +:+ "Error killing timed-out process: " +:+ e)]
            | None => [Kill; Wait]
            end
        end in
      ({| success := false; stdout := ""; stderr := ""; exit_code := -1;
          duration_ms := duration;
          started_at := now_started w; completed_at := now_completed w;
          error_message :=
            Some ("Command exceeded timeout of " +:+ str_Z exec_timeout +:+ "s") |},
       [WaitFor exec_timeout;
        Log ERROR (tag +:+ "Command '" +:+ command_name +:+ "' timed out after "
                   +:+ str_Z exec_timeout +:+ "s")]
       ++ teardown)
  | Completed stdout_data stderr_data rc =>
      let ok := rc =? 0 in
      ({| success := ok; stdout := strip stdout_data; stderr := strip stderr_data;
          exit_code := rc; duration_ms := duration;
          started_at := now_started w; completed_at := now_completed w;
          error_message :=
            if ok then None
            else Some ("Command failed with exit code " +:+ str_Z rc) |},
       [WaitFor exec_timeout;
        if ok
        then Log INFO (tag +:+ "Command '" +:+ command_name +:+ "' completed successfully in "
                       +:+ str_Z duration +:+ "ms")
        else Log WARNING (tag +:+ "Command '" +:+ command_name +:+ "' failed with exit code "
                          +:+ str_Z rc +:+ " in " +:+ str_Z duration +:+ "ms")])
  | CommRaises e =>
      ({| success := false; stdout := ""; stderr := e; exit_code := -1;
          duration_ms := duration;
          started_at := now_started w; completed_at := now_completed w;
          error_message := Some ("Execution error: " +:+ e) |},
       [WaitFor exec_timeout;
        Log EXCEPTION (tag +:+ "Unexpected error executing '" +:+ command_name +:+ "': " +:+ e)])
  end.

(** The timeout a request asks for: its own if given, else the command's
    default. *)
Definition requested (cmd_def : CommandDefinition) (timeout : option Z) : Z :=
  match timeout with
  | Some t => t
  | None => timeout_default cmd_def
  end.

(** The log line that announces the execution, then [limiter.__aenter__]. *)
Definition announced (w : world) (command_name request_id : string) (exec_timeout : Z)
  : list event :=
  [Log INFO ("[" +:+ request_id +:+ "] " +:+ "Executing command '" +:+ command_name
             +:+ "' with timeout " +:+ str_Z exec_timeout +:+ "s")]
  ++ (if semaphore_locked w
      then [Log WARNING "Max concurrent executions reached, request will wait"]
      else [])
  ++ [Acquire].

(** [SafeExecutor.execute_command]. *)
Definition execute_command (s : Settings) (reg : registry) (w : world)
  (command_name : string) (args : option (pydict pyvalue)) (timeout : option Z)
  (request_id : string) : ExecutionResult * list event :=
  let args := default [] args in
  match get_command reg command_name with
  | None =>
      (rejected w (Some ("Command '" +:+ command_name +:+ "' not found in registry")), [])
  | Some cmd_def =>
      let '(is_valid, error_msg) := validate_command_args reg command_name args in
      if negb is_valid then (rejected w error_msg, [])
      else
        let exec_timeout := _validate_timeout s (requested cmd_def timeout) in
        let command := _build_command (sys_executable w) (resolve w) cmd_def args in
        match spawn_error w with
        | Some e =>
            ({| success := false; stdout := ""; stderr := e; exit_code := -1;
                duration_ms := now_completed w - now_started w;
                started_at := now_started w; completed_at := now_completed w;
                error_message := Some ("Execution error: " +:+ e) |},
             announced w command_name request_id exec_timeout
             ++ [Spawn command (child_env w);
                 Log EXCEPTION ("[" +:+ request_id +:+ "] " +:+ "Unexpected error executing '"
                                +:+ command_name +:+ "': " +:+ e)]
             ++ [Release])
        | None =>
            let '(result, ev_run) := supervise w command_name request_id exec_timeout in
            (result,
             announced w command_name request_id exec_timeout
             ++ [Spawn command (child_env w)] ++ ev_run ++ [Release])
        end
  end.

(** The error codes of the [/execute] route and how it derives one from
    an error message. *)
Inductive error_code := EXECUTION_TIMEOUT | INVALID_COMMAND | EXECUTION_FAILED.

Definition classify (msg : string) : error_code :=
  if str_in "timeout" (lower msg) then EXECUTION_TIMEOUT
  else if str_in "not found" (lower msg) then INVALID_COMMAND
  else EXECUTION_FAILED.

(** Observations on a trace. *)
Definition spawns (tr : list event) : list (list string) :=
  omap (fun e => match e with Spawn argv _ => Some argv | _ => None end) tr.

Definition waits (tr : list event) : list Z :=
  omap (fun e => match e with WaitFor t => Some t | _ => None end) tr.

Definition kills (tr : list event) : nat :=
  length (omap (fun e => match e with Kill => Some tt | _ => None end) tr).

Definition awaited (tr : list event) : nat :=
  length (omap (fun e => match e with Wait => Some tt | _ => None end) tr).

End Executor.

(** ** The codecs of the modem script *)

Module Codec.

(** The value of a byte. *)
Definition byte (c : ascii) : Z := Z.of_nat (nat_of_ascii c).
(** [s.encode("ascii")] succeeds exactly on the texts whose bytes are all
    below 128, and is then the identity. *)
Definition is_ascii (c : ascii) : bool := byte c <? 128.
Fixpoint all_ascii (s : string) : bool :=
  match s with
  | EmptyString => true
  | String c rest => is_ascii c && all_ascii rest
  end.
(** A continuation byte, 10xxxxxx. *)
Definition continuation (c : ascii) : bool := (128 <=? byte c) && (byte c <=? 191).
(** The number of continuation bytes a lead byte asks for; 0 for a byte
    that cannot start a character (80..C1, F5..FF). *)
Definition trail (c : ascii) : nat :=
  let b := byte c in
  if b <? 194 then 0 else if b <? 224 then 1 else if b <? 240 then 2
  else if b <? 245 then 3 else 0.
(** The second byte of a character: a continuation byte, in the narrower
    range that excludes overlong forms (E0, F0), surrogates (ED) and code
    points above 10FFFF (F4). *)
Definition second_ok (lead c2 : ascii) : bool :=
  continuation c2 &&
  (if byte lead =? 224 then 160 <=? byte c2
   else if byte lead =? 237 then byte c2 <=? 159
   else if byte lead =? 240 then 144 <=? byte c2
   else if byte lead =? 244 then byte c2 <=? 143
   else true).

(** [b.decode(errors="ignore")], the utf-8 codec: a well-formed character
    is kept; otherwise the lead byte and the continuation bytes that were
    accepted after it are dropped and decoding resumes behind them.  A
    character cut short by the end of the data is dropped. *)
Fixpoint decode_ignore (s : string) : string :=
  match s with
  | EmptyString => EmptyString
  | String c rest =>
      if is_ascii c then String c (decode_ignore rest)
      else
        match trail c with
        | 1%nat =>
            match rest with
            | String c2 r2 =>
                if continuation c2 then String c (String c2 (decode_ignore r2))
                else decode_ignore rest
            | EmptyString => EmptyString
            end
        | 2%nat =>
            match rest with
            | String c2 r2 =>
                if second_ok c c2 then
                  match r2 with
                  | String c3 r3 =>
                      if continuation c3
                      then String c (String c2 (String c3 (decode_ignore r3)))
                      else decode_ignore r2
                  | EmptyString => EmptyString
                  end
                else decode_ignore rest
            | EmptyString => EmptyString
            end
        | 3%nat =>
            match rest with
            | String c2 r2 =>
                if second_ok c c2 then
                  match r2 with
                  | String c3 r3 =>
                      if continuation c3 then
                        match r3 with
                        | String c4 r4 =>
                            if continuation c4
                            then String c (String c2 (String c3 (String c4 (decode_ignore r4))))
                            else decode_ignore r3
                        | EmptyString => EmptyString
                        end
                      else decode_ignore r2
                  | EmptyString => EmptyString
                  end
                else decode_ignore rest
            | EmptyString => EmptyString
            end
        | _ => decode_ignore rest
        end
  end.

(** [s.encode("ascii", errors="replace")]: one question mark per character
    outside ASCII. *)
Fixpoint encode_replace (s : string) : string :=
  match s with
  | EmptyString => EmptyString
  | String c rest =>
      if is_ascii c then String c (encode_replace rest)
      else if continuation c then encode_replace rest
      else String "?" (encode_replace rest)
  end.

End Codec.

(** ** send_reminder_sms.py *)

Module Modem.
Import Text Codec.

(** What the script does to the outside world. *)
Inductive event :=
| Open (port : string) (baud : Z)     (* serial.Serial(port=..., baudrate=...) *)
| ResetInput                          (* ser.reset_input_buffer() *)
| Write (data : string)               (* ser.write(data) *)
| Flush                               (* ser.flush() *)
| Sleep (secs : Q)                    (* time.sleep(secs) *)
| Log (lvl : level) (msg : string)
| Print (msg : string)
| Close.                              (* ser.close() *)

(** The serial line as the script sees it: what each successive poll of
    [ser.in_waiting] finds and reads (the empty text when nothing waits; a
    line that ran out stays silent). *)
Definition line := list string.

(** Computations of the script: they consume the line, emit events, and end
    with a value or with [SystemExit(code)]. *)
Definition M (A : Type) : Type := line -> (A + Z) * line * list event.

Definition ret {A} (a : A) : M A := fun l => (inl a, l, []).

Definition bind {A B} (m : M A) (f : A -> M B) : M B :=
  fun l =>
    let '(r, l1, ev1) := m l in
    match r with
    | inl a => let '(r2, l2, ev2) := f a l1 in (r2, l2, ev1 ++ ev2)
    | inr code => (inr code, l1, ev1)
    end.

#[global] Instance M_ret : MRet M := @ret.
#[global] Instance M_bind : MBind M := fun A B f m => bind m f.

Definition emit (e : event) : M unit := fun l => (inl tt, l, [e]).

(** [sys.exit(code)]. *)
Definition sys_exit {A} (code : Z) : M A := fun l => (inr code, l, []).

(** An exception that nothing in the script catches: [main] closes the port
    in its [finally], the interpreter prints the traceback on stderr, and
    the process ends with status 1. *)
Definition uncaught {A} (e : string) : M A := fun l => (inr 1, l, []).

(** [n = ser.in_waiting] followed by [ser.read(n)] when [n] is not zero. *)
Definition poll : M string :=
  fun l => match l with
           | [] => (inl "", [], [])
           | chunk :: rest => (inl chunk, rest, [])
           end.

(** The loop of [read_until] sleeps 50 ms per round: on a clock that
    advances by the sleeps, [timeout] seconds are [20 * timeout] rounds. *)
Definition poll_interval : Q := (1 # 20)%Q.

Definition rounds (timeout : Z) : nat := Z.to_nat (20 * timeout).

Fixpoint read_until_loop (want_any_of : list string) (n : nat) (buf : string)
  : M (bool * string) :=
  match n with
  | O => mret (false, decode_ignore buf)
  | S k =>
      chunk ← poll;
      match chunk with
      | EmptyString => emit (Sleep poll_interval);; read_until_loop want_any_of k buf
      | _ =>
          let buf := buf +:+ chunk in
          let txt := decode_ignore buf in
          if existsb (fun w => str_in w txt) want_any_of then mret (true, txt)
          else if str_in "ERROR" txt then mret (false, txt)
          else emit (Sleep poll_interval);; read_until_loop want_any_of k buf
      end
  end.

Definition read_until (want_any_of : list string) (timeout : Z) : M (bool * string) :=
  read_until_loop want_any_of (rounds timeout) "".

(** The carriage return that ends a command and the Ctrl+Z that ends a text. *)
Definition CR : string := String (ascii_of_nat 13) EmptyString.
Definition CTRL_Z : string := String (ascii_of_nat 26) EmptyString.

Definition send_at (cmd expect : string) (timeout : Z) : M (bool * string) :=
  emit (Log DEBUG (">>> " +:+ cmd));;
  emit ResetInput;;
  (if all_ascii (cmd +:+ CR) then emit (Write (cmd +:+ CR))
   else uncaught "UnicodeEncodeError");;
  emit Flush;;
  '(ok, resp) ← read_until [expect; "ERROR"] timeout;
  emit (Log DEBUG ("<<< " +:+ join " " (split_ws resp "")));;
  mret (ok && str_in expect resp, resp).

(** [open_serial]: [None] when the port opened, else the error text. *)
Definition open_serial (port : string) (baud : Z) (open_error : option string) : M unit :=
  match open_error with
  | None =>
      emit (Open port baud);;
      emit (Log DEBUG ("Opened serial port " +:+ port +:+ " @ " +:+ str_Z baud))
  | Some e =>
      emit (Log ERROR ("Could not open serial port " +:+ port +:+ ": " +:+ e));;
      sys_exit 2
  end.

(** [for _ in range(n)] around the AT handshake, with its [else] branch;
    [resp] is the last response seen. *)
Fixpoint handshake_loop (n : nat) (resp : string) : M unit :=
  match n with
  | O =>
      emit (Log ERROR "Modem did not respond to AT. Is the SIM7600 powered and the port correct?");;
      emit (Log ERROR resp);;
      sys_exit 3
  | S k =>
      '(ok, resp) ← send_at "AT" "OK" 2;
      if (ok : bool) then mret tt
      else emit (Sleep (1 # 2)%Q);; handshake_loop k resp
  end.

(** [for _ in range(n)] waiting for the SIM, with its [else] branch. *)
Fixpoint sim_ready_loop (n : nat) : M unit :=
  match n with
  | O => emit (Log ERROR "SIM did not become READY in time.");; sys_exit 4
  | S k =>
      emit (Sleep 1%Q);;
      '(_, resp) ← send_at "AT+CPIN?" "OK" 2;
      if str_in "READY" resp then mret tt else sim_ready_loop k
  end.

Definition QUOTE : string := String (ascii_of_nat 34) EmptyString.

Definition handshake_and_prepare (sim_pin : string) : M unit :=
  handshake_loop 3 "";;
  send_at "ATE0" "OK" 2;;
  send_at "AT+CMEE=2" "OK" 2;;
  '(_, resp) ← send_at "AT+CPIN?" "OK" 3;
  (if str_in "SIM PIN" resp then
     match sim_pin with
     | EmptyString =>
         emit (Log ERROR "SIM requires PIN but no pin provided in config (MODEM.sim_pin).");;
         sys_exit 4
     | _ =>
         '(ok, resp) ← send_at ("AT+CPIN=" +:+ QUOTE +:+ sim_pin +:+ QUOTE) "OK" 5;
         if negb ok
         then emit (Log ERROR ("Failed to enter SIM PIN: " +:+ resp));; sys_exit 4
         else sim_ready_loop 20
     end
   else mret tt);;
  send_at "AT+CREG?" "OK" 2;;
  send_at "AT+COPS?" "OK" 5;;
  '(ok, resp) ← send_at "AT+CMGF=1" "OK" 2;
  (if negb ok
   then emit (Log ERROR ("Failed to set text mode: " +:+ resp));; sys_exit 5
   else mret tt);;
  send_at ("AT+CSCS=" +:+ QUOTE +:+ "GSM" +:+ QUOTE) "OK" 2;;
  send_at "AT+CSMP=17,167,0,0" "OK" 2;;
  mret tt.

(** The pattern \+CMGS:\s*(\d+) tried at the start of [s]: group 1. *)
Definition cmgs_at (s : string) : option string :=
  if String.prefix "+CMGS:" s
  then match take_digits (lstrip (skip 6 s)) with
       | EmptyString => None
       | digits => Some digits
       end
  else None.

(** [re.search] of that pattern: the leftmost match. *)
Fixpoint cmgs_search (s : string) : option string :=
  match cmgs_at s with
  | Some digits => Some digits
  | None =>
      match s with
      | EmptyString => None
      | String _ rest => cmgs_search rest
      end
  end.

Definition msg_ref (resp : string) : string := default "?" (cmgs_search resp).

Definition send_sms_to_number (number reminder_message : string) : M (bool * string) :=
  emit (Log INFO ("Sending SMS to " +:+ number));;
  '(ok, resp) ← send_at ("AT+CMGS=" +:+ QUOTE +:+ number +:+ QUOTE) ">" 5;
  if negb ok then
    emit (Log ERROR ("No '>' prompt for CMGS to " +:+ number +:+ ". Response: " +:+ resp));;
    mret (false, resp)
  else
    emit (Write (encode_replace reminder_message));;
    emit (Write CTRL_Z);;
    emit Flush;;
    '(_, resp) ← read_until ["+CMGS"; "OK"; "ERROR"] 60;
    if str_in "+CMGS" resp && str_in "OK" resp then
      emit (Log INFO ("✅ Sent to " +:+ number +:+ " (ref " +:+ msg_ref resp +:+ ")"));;
      mret (true, resp)
    else
      emit (Log ERROR ("❌ Failed to send to " +:+ number +:+ ". Response: " +:+ resp));;
      mret (false, resp).

(** The values [main] reads from [sms_config.ini]; [recipients] is the
    result of [parse_recipients]. *)
Record config := {
  port : string;
  baudrate : Z;
  sim_pin : string;
  recipients : list string;
  reminder_message : string;
  delay_between_sends : Q
}.

(** [max(0.0, d)]. *)
Definition max0 (d : Q) : Q := if Qle_bool d 0 then 0%Q else d.

(** [int(ok)]. *)
Definition int_of_bool (b : bool) : Z := if b then 1 else 0.

(** [for i, number in enumerate(recipients, 1)], entered with the index of
    the first remaining recipient and the running count. *)
Fixpoint send_all (total : nat) (delay_between : Q) (reminder_message : string)
  (i : nat) (remaining : list string) (successes : Z) : M Z :=
  match remaining with
  | [] => mret successes
  | number :: rest =>
      '(ok, _) ← send_sms_to_number number reminder_message;
      let successes := successes + int_of_bool ok in
      (if (i <? total)%nat then emit (Sleep (max0 delay_between)) else mret tt);;
      send_all total delay_between reminder_message (S i) rest successes
  end.

(** The three ways the batch ends. *)
Definition report (successes : Z) (total : nat) : M unit :=
  if successes =? Z.of_nat total then
    emit (Log INFO ("All " +:+ str_Z successes +:+ "/" +:+ str_Z (Z.of_nat total)
                    +:+ " messages sent successfully."));;
    emit (Print "✅ Done. See log for details.");;
    sys_exit 0
  else if successes =? 0 then
    emit (Log ERROR "No messages were sent successfully.");;
    emit (Print "❌ No messages sent. Check the log for details.");;
    sys_exit 8
  else
    emit (Log WARNING ("Partial success: " +:+ str_Z successes +:+ "/"
                       +:+ str_Z (Z.of_nat total) +:+ " messages sent."));;
    emit (Print ("⚠️ Partial success (" +:+ str_Z successes +:+ "/"
                 +:+ str_Z (Z.of_nat total) +:+ "). Check the log."));;
    sys_exit 9.

(** The [try] block of [main]. *)
Definition session (cfg : config) : M unit :=
  handshake_and_prepare (sim_pin cfg);;
  successes ← send_all (length (recipients cfg)) (delay_between_sends cfg)
                (reminder_message cfg) 1 (recipients cfg) 0;
  report successes (length (recipients cfg)).

(** The outside world of one run: whether the port opens, and the line. *)
Record world := {
  open_error : option string;
  inbound : line
}.

(** The exit status of a computation that ran to its end. *)
Definition status {A} (r : A + Z) : Z :=
  match r with
  | inl _ => 0
  | inr code => code
  end.

(** [main]: the exit status of the process and its trace. *)
Definition main (cfg : config) (w : world) : Z * list event :=
  match recipients cfg with
  | [] =>
      (2, [Log ERROR "Config error: set [SMS].phone_numbers or [SMS].phone_number in sms_config.ini"])
  | _ =>
      match reminder_message cfg with
      | EmptyString =>
          (2, [Log ERROR "Config error: set [SMS].reminder_message in sms_config.ini"])
      | _ =>
          let '(r, l, ev) := open_serial (port cfg) (baudrate cfg) (open_error w) (inbound w) in
          match r with
          | inr code => (code, ev)
          | inl _ =>
              let '(r, _, ev') := session cfg l in
              (status r, ev ++ ev' ++ [Close])
          end
      end
  end.












End Modem.

(** Sample inputs of the monitor. *)

Module MonitorInputs.
Import Text Monitor.

Definition under (script_name : string) : string := "/opt/sms/" +:+ script_name.

(** Primary down; the router answers. *)
Definition down : tick_env :=
  {| primary := PingExit 1; router := PingExit 0; script := ScriptExit 0 "" "";
     mono := 100%Q; mono_again := 101%Q |}.

(** Primary up. *)
Definition up : tick_env :=
  {| primary := PingExit 0; router := PingExit 0; script := ScriptExit 0 "" "";
     mono := 200%Q; mono_again := 201%Q |}.

Definition before_alert : state :=
  {| failure_streak := 3; in_outage := false; last_reminder_monotonic := 0%Q |}.

Definition after_alert : state :=
  {| failure_streak := 4; in_outage := true; last_reminder_monotonic := 100%Q |}.

End MonitorInputs.

(** Sample inputs of the executor. *)

Module ExecutorInputs.
Import Text Executor.

(** The clamp of the specification: [x] limited to the range [lo .. hi]. *)
Definition clamp (x lo hi : Z) : Z := Z.max lo (Z.min x hi).

(** The registry at startup when every script is in place. *)
Definition whitelisted : registry :=
  match initialize_commands "/opt/sms-gateway" (fun _ => true) with
  | inr reg => reg
  | inl _ => ∅
  end.

(** The entry of the whitelist for the clear notification. *)
Definition send_clear : CommandDefinition :=
  {| name := "send_clear";
     script_path := "/opt/sms-gateway/send_clear_sms.py";
     description := "Send clear/recovery SMS notification";
     timeout_default := 60; args_schema := [] |}.

(** A child that ends in time with status 0. *)
Definition in_time : world :=
  {| now_started := 1000; now_completed := 1250; semaphore_locked := false;
     sys_executable := "/usr/bin/python3"; home := "/root"; resolve := id;
     spawn_error := None; comm := Completed "done" "" 0;
     kill_error := None; wait_error := None |}.

(** A child that overruns and is killed. *)
Definition overrun : world :=
  {| now_started := 1000; now_completed := 61000; semaphore_locked := false;
     sys_executable := "/usr/bin/python3"; home := "/root"; resolve := id;
     spawn_error := None; comm := TimedOut;
     kill_error := None; wait_error := None |}.

(** A child that overruns and is gone when [kill] reaches it. *)
Definition overrun_gone : world :=
  {| now_started := 1000; now_completed := 61000; semaphore_locked := false;
     sys_executable := "/usr/bin/python3"; home := "/root"; resolve := id;
     spawn_error := None; comm := TimedOut;
     kill_error := Some "ProcessLookupError"; wait_error := None |}.

End ExecutorInputs.

(** Sample inputs of the modem driver. *)

Module ModemInputs.
Import Text Modem.

Definition LF : string := String (ascii_of_nat 10) EmptyString.
Definition CRLF : string := CR +:+ LF.

(** The final result code of a command that succeeded. *)
Definition OK : string := CRLF +:+ "OK" +:+ CRLF.

(** The prompt for the text of a message. *)
Definition PROMPT : string := CRLF +:+ "> ".

(** The acknowledgment of a message with reference 42, whole, and as far as
    its first line. *)
Definition ACK_42 : string := CRLF +:+ "+CMGS: 42" +:+ CRLF +:+ OK.
Definition ACK_42_FIRST_LINE : string := CRLF +:+ "+CMGS: 42" +:+ CRLF.



Definition three : config :=
  {| port := "/dev/ttyUSB2"; baudrate := 115200; sim_pin := "";
     recipients := ["+15550001"; "+15550002"; "+15550003"];
     reminder_message := "Outage ongoing"; delay_between_sends := (2 # 1)%Q |}.

Definition one : config :=
  {| port := "/dev/ttyUSB2"; baudrate := 115200; sim_pin := "";
     recipients := ["+15550001"];
     reminder_message := "Outage ongoing"; delay_between_sends := (-1 # 1)%Q |}.



(** The modem is switched off. *)
Definition dead : world := {| open_error := None; inbound := [] |}.

(** The non-breaking hyphen U+2011, and a number that carries it as numbers
    copied from a formatted page do. *)
Definition NB_HYPHEN : string :=
  String (ascii_of_nat 226) (String (ascii_of_nat 128) (String (ascii_of_nat 145) EmptyString)).

Definition HYPHENATED : string := "+1555" +:+ NB_HYPHEN +:+ "0002".




End ModemInputs.

(** ** More of network_monitor.py: what a run of probes amounts to *)

Module MonitorRuns.
Import Text Monitor.

(** The number of probes at the front of [envs] that found the primary
    target unreachable. *)
Fixpoint leading_failures (cfg : config) (envs : list tick_env) : nat :=
  match envs with
  | [] => O
  | env :: rest => if reachable cfg env then O else S (leading_failures cfg rest)
  end.

(** The number of probes since the primary target was last reachable: the
    unreachable probes at the end of the run. *)
Definition trailing_failures (cfg : config) (envs : list tick_env) : nat :=
  leading_failures cfg (rev envs).

(** The sleeps of a trace. *)
Definition sleeps (tr : list event) : list Z :=
  omap (fun e => match e with Sleep s => Some s | _ => None end) tr.

(** Primary down, router down, and the reminder interval has passed. *)
Definition still_down : tick_env :=
  {| primary := PingRaises "ping: not found"; router := PingExit 2;
     script := ScriptExit 0 "" "";
     mono := 460%Q; mono_again := 475%Q |}.

End MonitorRuns.

(** ** network_monitor.py: load_config *)

Module MonitorConfig.
Import Text Monitor.

(** The [DEFAULTS] dictionary, as written: every value is a text. *)
Definition DEFAULTS_text : list (string * string) :=
  [ ("router_ip", "172.168.133.1");
    ("internet_ip", "8.8.8.8");
    ("check_interval_seconds", "30");
    ("ping_count", "4");
    ("failure_threshold", "4");
    ("reminder_interval_seconds", "300");
    ("alert_power_script", "send_alert_power_sms.py");
    ("alert_network_script", "send_alert_network_sms.py");
    ("reminder_script", "send_reminder_sms.py");
    ("clear_script", "send_clear_sms.py");
    ("log_file", "network_monitor.log");
    ("log_level", "INFO") ].

(** One round of [for k in DEFAULTS]: a key of the section with a non-empty
    value replaces the default. *)
Definition override (section : gmap string string) (cfg : gmap string string) (k : string)
  : gmap string string :=
  match section !! k with
  | Some v => if String.eqb v "" then cfg else <[k := v]> cfg
  | None => cfg
  end.

(** The dictionary [cfg] before the numeric casts.  [section] is the
    [monitor] section of the file as the parser presents it, [None] when the
    file or the section is missing. *)
Definition merged (section : option (gmap string string)) : gmap string string :=
  let cfg : gmap string string := list_to_map DEFAULTS_text in
  match section with
  | None => cfg
  | Some sec => foldl (override sec) cfg (DEFAULTS_text.*1)
  end.

(** [cfg[k]]; every key read is a key of [DEFAULTS]. *)
Definition item (cfg : gmap string string) (k : string) : string := default "" (cfg !! k).

(** What [main] takes from the dictionary [load_config] returns. *)
Record loaded := {
  monitor : config;
  log_file : string;
  log_level : string
}.

(** [load_config]; [int_] is the built-in [int] on texts, [None] where it
    raises [ValueError], and so is the result. *)
Definition load_config (int_ : string -> option Z) (section : option (gmap string string))
  : option loaded :=
  let cfg := merged section in
  interval ← int_ (item cfg "check_interval_seconds");
  count ← int_ (item cfg "ping_count");
  threshold ← int_ (item cfg "failure_threshold");
  reminder ← int_ (item cfg "reminder_interval_seconds");
  Some {| monitor :=
            {| router_ip := item cfg "router_ip";
               internet_ip := item cfg "internet_ip";
               check_interval := interval;
               ping_count := count;
               failure_threshold := threshold;
               reminder_interval := reminder;
               alert_power_script := item cfg "alert_power_script";
               alert_network_script := item cfg "alert_network_script";
               reminder_script := item cfg "reminder_script";
               clear_script := item cfg "clear_script" |};
          log_file := item cfg "log_file";
          log_level := item cfg "log_level" |}.

(** The text [load_config] ends up with for a key whose default is [d]. *)
Definition chosen (section : option (gmap string string)) (k d : string) : string :=
  match section with
  | None => d
  | Some sec =>
      match sec !! k with
      | Some v => if String.eqb v "" then d else v
      | None => d
      end
  end.

(** A reading of plain decimal numerals, for the samples. *)
Fixpoint numeral (s : string) (acc : Z) : option Z :=
  match s with
  | EmptyString => Some acc
  | String c rest =>
      if isdigit c
      then numeral rest (10 * acc + (Z.of_nat (nat_of_ascii c) - 48))
      else None
  end.

Definition int_numeral (s : string) : option Z :=
  match s with
  | EmptyString => None
  | _ => numeral s 0
  end.

(** A section that lowers the threshold, blanks the router address and
    carries a key the monitor does not know. *)
Definition sample_section : gmap string string :=
  {[ "failure_threshold" := "2"; "router_ip" := ""; "colour" := "blue" ]}.

(** What [load_config] makes of it. *)
Definition sample_loaded : loaded :=
  {| monitor :=
       {| router_ip := "172.168.133.1"; internet_ip := "8.8.8.8";
          check_interval := 30; ping_count := 4; failure_threshold := 2;
          reminder_interval := 300;
          alert_power_script := "send_alert_power_sms.py";
          alert_network_script := "send_alert_network_sms.py";
          reminder_script := "send_reminder_sms.py";
          clear_script := "send_clear_sms.py" |};
     log_file := "network_monitor.log"; log_level := "INFO" |}.

End MonitorConfig.

(** ** More observations on the executor *)

Module ExecutorTraces.
Import Text Executor.

Definition is_log (e : event) : bool :=
  match e with
  | Log _ _ => true
  | _ => false
  end.

(** Neither end of the concurrency gate. *)
Definition inside_gate (e : event) : bool :=
  match e with
  | Acquire | Release => false
  | _ => true
  end.

(** The keys of a dictionary. *)
Definition keys {A} (d : pydict A) : list string := d.*1.

(** A command that takes a text and a count. *)
Definition custom_command : CommandDefinition :=
  {| name := "custom_command";
     script_path := "/opt/sms-gateway/custom_script.py";
     description := "Custom command with arguments";
     timeout_default := 30;
     args_schema := [("message", TStr); ("count", TInt)] |}.

(** Every script of the whitelist but the reminder's is in place. *)
Definition reminder_missing (path : string) : bool :=
  negb (String.eqb path "/opt/sms-gateway/send_reminder_sms.py").

End ExecutorTraces.

(** ** More of send_reminder_sms.py: recipients and what a run touches *)

Module ModemMore.
Import Text Modem.

(** Every character of a text satisfies [p]. *)
Fixpoint every (p : ascii -> bool) (s : string) : bool :=
  match s with
  | EmptyString => true
  | String c rest => p c && every p rest
  end.



(** The separators of the pattern [,\n]. *)
Definition is_separator (c : ascii) : bool :=
  Ascii.eqb c "," || Ascii.eqb c (ascii_of_nat 10).

(** [re.split] on a one-character class: the pieces between the separators,
    one more than there are separators; [cur] is the piece being read. *)
Fixpoint split_at (sep : ascii -> bool) (s cur : string) : list string :=
  match s with
  | EmptyString => [cur]
  | String c rest =>
      if sep c then cur :: split_at sep rest EmptyString
      else split_at sep rest (cur +:+ String c EmptyString)
  end.

Definition nonempty (s : string) : bool :=
  match s with
  | EmptyString => false
  | _ => true
  end.

(** The numbers found in the [phone_numbers] block. *)
Definition block_numbers (phone_numbers : option string) : list string :=
  let numbers_block := strip (default "" phone_numbers) in
  match numbers_block with
  | EmptyString => []
  | _ => List.filter nonempty (List.map strip (split_at is_separator numbers_block ""))
  end.

(** [parse_recipients], from the two options of the [SMS] section, each
    [None] when the file does not set it. *)
Definition parse_recipients (phone_numbers phone_number : option string) : list string :=
  match block_numbers phone_numbers with
  | number :: others => number :: others
  | [] =>
      let single := strip (default "" phone_number) in
      match single with
      | EmptyString => []
      | _ => [single]
      end
  end.

(** Events other than the opening and the closing of the port. *)
Definition inside_session (e : event) : bool :=
  match e with
  | Open _ _ | Close => false
  | _ => true
  end.

(** Events other than the writing of a PIN command. *)
Definition not_pin_command (e : event) : bool :=
  match e with
  | Write data => negb (String.prefix "AT+CPIN=" data)
  | _ => true
  end.

(** Events that leave the serial port alone. *)
Definition off_the_line (e : event) : bool :=
  match e with
  | Log _ _ | Print _ => true
  | _ => false
  end.

(** A computation all of whose events satisfy [p], on every line. *)
Definition always {A} (p : event -> bool) (m : M A) : Prop :=
  forall l, forallb p (snd (m l)) = true.


(** The commands [handshake_and_prepare] sends whatever the PIN. *)
Definition setup_commands : list string :=
  ["AT"; "ATE0"; "AT+CMEE=2"; "AT+CPIN?"; "AT+CREG?"; "AT+COPS?"; "AT+CMGF=1";
   "AT+CSCS=" +:+ QUOTE +:+ "GSM" +:+ QUOTE; "AT+CSMP=17,167,0,0"].

End ModemMore.

(** ** core/config.py (security settings), core/middleware.py,
       api/routes/commands.py *)

Module Gateway.
Import Text Executor ModemMore.

(** The security settings of [Settings]. *)
Record Security := {
  API_KEY : string;
  API_KEY_HEADER : string;
  ALLOWED_IPS : option string
}.

Definition is_comma (c : ascii) : bool := Ascii.eqb c ",".

(** [Settings.get_allowed_ips]; [s.split(",")] is the split on the comma. *)
Definition get_allowed_ips (sec : Security) : list string :=
  match ALLOWED_IPS sec with
  | None => []
  | Some EmptyString => []
  | Some s => List.map strip (split_at is_comma s "")
  end.

Definition UNAUTHENTICATED_PATHS : list string :=
  ["/health"; "/docs"; "/redoc"; "/openapi.json"].

(** [x in l] on a list of texts. *)
Definition member (x : string) (l : list string) : bool := existsb (String.eqb x) l.

(** What the middleware reads of a request; [api_key_header] is
    [request.headers.get(settings.API_KEY_HEADER)]. *)
Record request := {
  method : string;
  path : string;
  client_host : string;
  api_key_header : option string
}.

(** The request goes on to [call_next], or is answered at once. *)
Inductive verdict :=
| Forwarded
| Refused (status_code : Z) (code message : string).

(** [api_key_middleware], with the request id it drew: the verdict and the
    lines it logs.  Either way the response carries the id in
    X-Request-ID. *)
Definition api_key_middleware (sec : Security) (req : request) (request_id : string)
  : verdict * list (level * string) :=
  if member (path req) UNAUTHENTICATED_PATHS then (Forwarded, [])
  else
    let allowed_ips := get_allowed_ips sec in
    if match allowed_ips with [] => false | _ => negb (member (client_host req) allowed_ips) end
    then
      (Refused 403 "FORBIDDEN" "Access denied: IP not whitelisted",
       [(WARNING, "[" +:+ request_id +:+ "] Blocked request from unauthorized IP: "
                  +:+ client_host req)])
    else
      match api_key_header req with
      | None | Some EmptyString =>
          (Refused 401 "MISSING_API_KEY"
             ("API key required in " +:+ API_KEY_HEADER sec +:+ " header"),
           [(WARNING, "[" +:+ request_id +:+ "] Missing API key from " +:+ client_host req)])
      | Some api_key =>
          if negb (String.eqb api_key (API_KEY sec)) then
            (Refused 401 "INVALID_API_KEY" "Invalid API key",
             [(WARNING, "[" +:+ request_id +:+ "] Invalid API key from " +:+ client_host req
                        +:+ ": " +:+ substring 0 8 api_key +:+ "...")])
          else
            (Forwarded,
             [(INFO, "[" +:+ request_id +:+ "] " +:+ method req +:+ " " +:+ path req
                     +:+ " from " +:+ client_host req)])
      end.

(** The body of a POST to /execute, as the request model accepts it. *)
Record ExecuteCommandRequest := {
  command : string;
  args : pydict pyvalue;
  timeout : option Z;
  mode : string
}.

(** The bounds of the [timeout] field: [ge=1, le=120]. *)
Definition timeout_in_bounds (r : ExecuteCommandRequest) : bool :=
  match timeout r with
  | None => true
  | Some t => (1 <=? t) && (t <=? 120)
  end.

(** [[cmd.name for cmd in registry.list_commands()]]: the names of the
    registered definitions, as a set. *)
Definition available_commands (reg : registry) : gset string :=
  list_to_set (name <$> (map_to_list reg).*2).

(** The answers of the route.  [available] holds the names the response
    lists; [details] is present when the result has standard error text.
    The clock of [world] reads whole milliseconds, on which
    [round(duration_ms, 2)] is the duration itself. *)
Inductive response :=
| InvalidCommand (request_id command message : string) (available : gset string)
| InvalidMode (request_id : string)
| ExecutionError (http_status : Z) (code : error_code)
    (request_id command message : string) (details : option (Z * string * string))
    (duration started completed : Z)
| Done (request_id command out err : string) (exit_status : Z)
    (duration started completed : Z).

Definition http_status_of (code : error_code) : Z :=
  match code with
  | EXECUTION_TIMEOUT => 408
  | INVALID_COMMAND => 400
  | EXECUTION_FAILED => 500
  end.

Definition status_code_of (r : response) : Z :=
  match r with
  | InvalidCommand _ _ _ _ => 400
  | InvalidMode _ => 400
  | ExecutionError http_status _ _ _ _ _ _ _ _ => http_status
  | Done _ _ _ _ _ _ _ _ => 200
  end.

(** The route [execute_command]; [repr_args] is the built-in rendering of
    the argument dictionary in the log line. *)
Definition execute_route (repr_args : pydict pyvalue -> string)
  (s : Settings) (reg : registry) (w : world)
  (cmd_request : ExecuteCommandRequest) (request_id : string) : response * list event :=
  let asked :=
    Log INFO ("[" +:+ request_id +:+ "] Execute request: command='" +:+ command cmd_request
              +:+ "', " +:+ "args=" +:+ repr_args (args cmd_request) +:+ ", timeout="
              +:+ match timeout cmd_request with
                  | Some t => str_Z t
                  | None => "None"
                  end) in
  if negb (is_valid_command reg (command cmd_request)) then
    (InvalidCommand request_id (command cmd_request)
       ("Command '" +:+ command cmd_request +:+ "' not found in registry")
       (available_commands reg),
     [asked;
      Log WARNING ("[" +:+ request_id +:+ "] Invalid command: '" +:+ command cmd_request
                   +:+ "'")])
  else if negb (String.eqb (mode cmd_request) "sync") then
    (InvalidMode request_id, [asked])
  else
    let '(result, ev) :=
      execute_command s reg w (command cmd_request) (Some (args cmd_request))
        (timeout cmd_request) request_id in
    (match error_message result with
     | Some (String c rest) =>
         let msg := String c rest in
         ExecutionError (http_status_of (classify msg)) (classify msg)
           request_id (command cmd_request) msg
           (match stderr result with
            | EmptyString => None
            | _ => Some (exit_code result, stdout result, stderr result)
            end)
           (duration_ms result) (started_at result) (completed_at result)
     | _ =>
         Done request_id (command cmd_request) (stdout result) (stderr result)
           (exit_code result)
           (duration_ms result) (started_at result) (completed_at result)
     end,
     asked :: ev).

(** A key, the header that carries it and no address filter; a filter. *)
Definition open_door : Security :=
  {| API_KEY := "s3cret-key-0001"; API_KEY_HEADER := "X-API-Key"; ALLOWED_IPS := None |}.

Definition two_hosts : Security :=
  {| API_KEY := "s3cret-key-0001"; API_KEY_HEADER := "X-API-Key";
     ALLOWED_IPS := Some "10.0.0.5, 10.0.0.6" |}.

Definition from_known_host : request :=
  {| method := "POST"; path := "/api/v1/commands/execute"; client_host := "10.0.0.6";
     api_key_header := Some "s3cret-key-0001" |}.

Definition clear_request : ExecuteCommandRequest :=
  {| command := "send_clear"; args := []; timeout := Some 90; mode := "sync" |}.

(** A rendering of the empty argument dictionary. *)
Definition braces (a : pydict pyvalue) : string := "{}".

End Gateway.

(** The characters of a printed integer. *)

Module Numerals.
Import Text.

Definition sign_or_digit (c : ascii) : bool := isdigit c || Ascii.eqb c "-".

End Numerals.

(** * Properties *)

Module TextFacts.
Import Text.

Lemma prefix_app w rest : String.prefix w (w +:+ rest) = true.
Proof.
  induction w as [|c w IH]; simpl.
  - now destruct rest.
  - destruct (ascii_dec c c) as [_|N]; [exact IH | now destruct N].
Qed.

Lemma str_in_here w rest : str_in w (w +:+ rest) = true.
Proof.
  pose proof (prefix_app w rest) as P.
  destruct (w +:+ rest); simpl in *; now rewrite P.
Qed.

Lemma str_in_later w pre rest : str_in w rest = true -> str_in w (pre +:+ rest) = true.
Proof.
  intros H. induction pre as [|c pre IH]; simpl; [exact H|].
  rewrite IH. apply orb_true_r.
Qed.

Lemma lower_app a b : lower (a +:+ b) = lower a +:+ lower b.
Proof. induction a as [|c a IH]; simpl; [reflexivity | now rewrite IH]. Qed.

End TextFacts.

(** ** The connectivity monitor *)

Module MonitorSpec.
Import Text Monitor.

Section Paths.

Variable script_path : string -> string.

Lemma pings_app tr1 tr2 : pings (tr1 ++ tr2) = pings tr1 ++ pings tr2.
Proof. apply omap_app. Qed.

Lemma pings_run_script nm o : pings (run_script script_path nm o) = [].
Proof. destruct o as [|rc out err|e]; simpl; [| destruct (rc =? 0) |]; reflexivity. Qed.

Lemma pings_run_ping ip n o : pings (snd (run_ping ip n o)) = [(ip, n)].
Proof. now destruct o. Qed.

(** A reachable probe is a ping that returned, and leaves a single event. *)
Lemma reachable_events cfg env :
  reachable cfg env = true ->
  run_ping (internet_ip cfg) (ping_count cfg) (primary env)
  = (true, [Ping (internet_ip cfg) (ping_count cfg)]).
Proof.
  unfold reachable. destruct (primary env) as [rc|e]; simpl; [|discriminate].
  now intros ->.
Qed.

(** One iteration moves the flag up only on an unreachable probe whose
    streak, just incremented, is at the threshold, and down only on a
    reachable probe. *)
Lemma tick_flag cfg env st :
  let st' := fst (tick script_path cfg env st) in
  (in_outage st = false -> in_outage st' = true ->
   reachable cfg env = false
   /\ failure_streak st' = failure_streak st + 1
   /\ failure_threshold cfg <= failure_streak st')
  /\ (in_outage st = true -> in_outage st' = false -> reachable cfg env = true).
Proof.
  unfold tick, reachable.
  destruct (run_ping (internet_ip cfg) (ping_count cfg) (primary env)) as [ok ev].
  destruct ok, (in_outage st) eqn:Hout; simpl.
  - split; [discriminate | reflexivity].
  - split; discriminate.
  - destruct (Qle_bool _ _); simpl; split; discriminate.
  - destruct (failure_threshold cfg <=? failure_streak st + 1) eqn:Hthr; simpl.
    + destruct (run_ping (router_ip cfg) 1 (router env)) as [rok evr]; simpl.
      split; [|discriminate]. intros _ _. repeat split. now apply Z.leb_le.
    + split; discriminate.
Qed.

Lemma states_lookup_S cfg env envs st k :
  states script_path cfg (env :: envs) st !! S k
  = states script_path cfg envs (fst (tick script_path cfg env st)) !! k.
Proof. reflexivity. Qed.

Lemma states_head cfg envs st : states script_path cfg envs st !! 0%nat = Some st.
Proof. now destruct envs. Qed.

(** [states] lists the states [main_loop] goes through. *)
Lemma main_loop_final cfg envs st :
  last (states script_path cfg envs st) = Some (fst (main_loop script_path cfg envs st)).
Proof.
  revert st. induction envs as [|env envs IH]; intros st; [reflexivity|].
  simpl. destruct (tick script_path cfg env st) as [st1 ev] eqn:Ht.
  destruct (main_loop script_path cfg envs st1) as [st2 evs] eqn:Hm. simpl.
  specialize (IH st1). rewrite Hm in IH. simpl in IH. rewrite <- IH.
  destruct envs; reflexivity.
Qed.

(** C3.  Along every run of the monitor loop, from any state and for any
    sequence of probe outcomes: if the outage flag is false at the start of
    iteration [k] and true after it, the primary probe of that iteration
    was unreachable and the streak it incremented is at or above the
    failure threshold; if the flag is true before and false after, the
    primary probe of that iteration was reachable. *)
Theorem outage_transitions cfg envs st0 k s s' env :
  states script_path cfg envs st0 !! k = Some s ->
  states script_path cfg envs st0 !! S k = Some s' ->
  envs !! k = Some env ->
  (in_outage s = false -> in_outage s' = true ->
   reachable cfg env = false
   /\ failure_streak s' = failure_streak s + 1
   /\ failure_threshold cfg <= failure_streak s')
  /\ (in_outage s = true -> in_outage s' = false -> reachable cfg env = true).
Proof.
  revert st0 k. induction envs as [|e envs IH]; intros st0 k Hs Hs' He.
  - destruct k; discriminate.
  - destruct k as [|k].
    + simpl in Hs, He. injection Hs as <-. injection He as <-.
      rewrite states_lookup_S, states_head in Hs'. injection Hs' as <-.
      apply tick_flag.
    + rewrite states_lookup_S in Hs, Hs'. simpl in He.
      exact (IH _ _ Hs Hs' He).
Qed.

(** C4.  In an iteration that starts outside an outage, whose primary probe
    is unreachable and whose incremented streak is at or above the
    threshold, the loop pings the primary target, then the router once with
    a count of 1, runs the network alert script if the router answered and
    the power alert script otherwise, and ends in outage with the
    incremented streak and the reminder clock set to the current reading. *)
Theorem alert_tick cfg env st :
  reachable cfg env = false ->
  in_outage st = false ->
  failure_threshold cfg <= failure_streak st + 1 ->
  let router_ok := fst (run_ping (router_ip cfg) 1 (router env)) in
  let tr := snd (tick script_path cfg env st) in
  fst (tick script_path cfg env st)
  = {| failure_streak := failure_streak st + 1; in_outage := true;
       last_reminder_monotonic := mono env |}
  /\ tr = snd (run_ping (internet_ip cfg) (ping_count cfg) (primary env))
          ++ [Log WARNING ("Primary ping FAILED (" +:+ str_Z (failure_streak st + 1) +:+ "/"
                           +:+ str_Z (failure_threshold cfg) +:+ ") to "
                           +:+ internet_ip cfg +:+ ".")]
          ++ snd (run_ping (router_ip cfg) 1 (router env))
          ++ run_script script_path
               (if router_ok then alert_network_script cfg else alert_power_script cfg)
               (script env)
          ++ [Log ERROR
                (if router_ok
                 then "Network-only outage detected (router reachable, internet not). Alerted network."
                 else "Power/network outage detected (router unreachable). Alerted power.")]
  /\ pings tr = [(internet_ip cfg, ping_count cfg); (router_ip cfg, 1)].
Proof.
  intros Hreach Hout Hthr. unfold reachable in Hreach. cbv zeta.
  assert (E : tick script_path cfg env st
    = ({| failure_streak := failure_streak st + 1; in_outage := true;
          last_reminder_monotonic := mono env |},
       snd (run_ping (internet_ip cfg) (ping_count cfg) (primary env))
       ++ [Log WARNING ("Primary ping FAILED (" +:+ str_Z (failure_streak st + 1) +:+ "/"
                        +:+ str_Z (failure_threshold cfg) +:+ ") to "
                        +:+ internet_ip cfg +:+ ".")]
       ++ snd (run_ping (router_ip cfg) 1 (router env))
       ++ run_script script_path
            (if fst (run_ping (router_ip cfg) 1 (router env))
             then alert_network_script cfg else alert_power_script cfg)
            (script env)
       ++ [Log ERROR
             (if fst (run_ping (router_ip cfg) 1 (router env))
              then "Network-only outage detected (router reachable, internet not). Alerted network."
              else "Power/network outage detected (router unreachable). Alerted power.")])).
  { unfold tick.
    destruct (run_ping (internet_ip cfg) (ping_count cfg) (primary env)) as [ok ev].
    simpl in Hreach. subst ok. rewrite Hout. simpl.
    apply Z.leb_le in Hthr. rewrite Hthr.
    destruct (run_ping (router_ip cfg) 1 (router env)) as [rok evr]. simpl.
    destruct rok; reflexivity. }
  rewrite E. cbn [fst snd]. repeat split.
  rewrite !pings_app, !pings_run_ping, pings_run_script. reflexivity.
Qed.

(** C9.  In an iteration whose primary probe is reachable: inside an outage
    the loop clears the flag, resets the streak to 0 and runs the clear
    script once, the ping and the log line being its only other events;
    outside an outage it resets the streak to 0 and does nothing but the
    ping. *)
Theorem reachable_tick cfg env st :
  reachable cfg env = true ->
  (in_outage st = true ->
   tick script_path cfg env st
   = ({| failure_streak := 0; in_outage := false;
         last_reminder_monotonic := last_reminder_monotonic st |},
      [Ping (internet_ip cfg) (ping_count cfg)]
      ++ run_script script_path (clear_script cfg) (script env)
      ++ [Log INFO "Connectivity restored (internet reachable); cleared outage state."]))
  /\ (in_outage st = false ->
      tick script_path cfg env st
      = ({| failure_streak := 0; in_outage := false;
            last_reminder_monotonic := last_reminder_monotonic st |},
         [Ping (internet_ip cfg) (ping_count cfg)])).
Proof.
  intros Hreach. apply reachable_events in Hreach.
  unfold tick. rewrite Hreach.
  split; intros ->; reflexivity.
Qed.

End Paths.

End MonitorSpec.

Module MonitorExamples.
Import Text Monitor MonitorInputs.

(** With the default threshold of 4, the fourth failure in a row raises the
    flag. *)
Lemma outage_transitions_witness :
  (in_outage before_alert = false -> in_outage after_alert = true ->
   reachable DEFAULTS down = false
   /\ failure_streak after_alert = failure_streak before_alert + 1
   /\ failure_threshold DEFAULTS <= failure_streak after_alert)
  /\ (in_outage before_alert = true -> in_outage after_alert = false ->
      reachable DEFAULTS down = true).
Proof.
  apply (MonitorSpec.outage_transitions under DEFAULTS [down; down; down; down] initial 3);
    reflexivity.
Defined.

Lemma alert_tick_witness :
  fst (tick under DEFAULTS down before_alert) = after_alert
  /\ execs (snd (tick under DEFAULTS down before_alert))
     = ["/opt/sms/send_alert_network_sms.py"]
  /\ pings (snd (tick under DEFAULTS down before_alert)) = [("8.8.8.8", 4); ("172.168.133.1", 1)].
Proof.
  destruct (MonitorSpec.alert_tick under DEFAULTS down before_alert) as (Hst & Htr & Hp);
    [reflexivity | reflexivity | simpl; lia |].
  split; [exact Hst|]. split; [rewrite Htr; reflexivity | exact Hp].
Defined.

Lemma reachable_tick_witness :
  tick under DEFAULTS up after_alert
  = ({| failure_streak := 0; in_outage := false; last_reminder_monotonic := 100%Q |},
     [Ping "8.8.8.8" 4; Exec "/opt/sms/send_clear_sms.py";
      Log INFO "Executed send_clear_sms.py successfully.";
      Log INFO "Connectivity restored (internet reachable); cleared outage state."]).
Proof.
  destruct (MonitorSpec.reachable_tick under DEFAULTS up after_alert) as [Hin _];
    [reflexivity|].
  exact (Hin eq_refl).
Defined.

End MonitorExamples.

(** ** The command executor *)

Module ExecutorSpec.
Import Text TextFacts Executor ExecutorInputs.

(** A registered command with acceptable arguments whose child starts is
    supervised under the validated timeout, inside the gate. *)
Lemma execute_resolved s reg w nm args timeout rid cmd :
  reg !! nm = Some cmd ->
  validate_args cmd (default [] args) = true ->
  spawn_error w = None ->
  execute_command s reg w nm args timeout rid
  = (fst (supervise w nm rid (_validate_timeout s (requested cmd timeout))),
     announced w nm rid (_validate_timeout s (requested cmd timeout))
     ++ [Spawn (_build_command (sys_executable w) (resolve w) cmd (default [] args))
               (child_env w)]
     ++ snd (supervise w nm rid (_validate_timeout s (requested cmd timeout)))
     ++ [Release]).
Proof.
  intros Hreg Hargs Hspawn.
  unfold execute_command, validate_command_args, get_command.
  rewrite Hreg, Hargs, Hspawn. simpl negb. cbv iota beta.
  now destruct (supervise w nm rid _) as [res ev].
Qed.

Lemma waits_app tr1 tr2 : waits (tr1 ++ tr2) = waits tr1 ++ waits tr2.
Proof. apply omap_app. Qed.

Lemma kills_app tr1 tr2 : kills (tr1 ++ tr2) = (kills tr1 + kills tr2)%nat.
Proof. unfold kills. now rewrite omap_app, length_app. Qed.

Lemma awaited_app tr1 tr2 : awaited (tr1 ++ tr2) = (awaited tr1 + awaited tr2)%nat.
Proof. unfold awaited. now rewrite omap_app, length_app. Qed.

Lemma spawns_app tr1 tr2 : spawns (tr1 ++ tr2) = spawns tr1 ++ spawns tr2.
Proof. apply omap_app. Qed.

Lemma announced_quiet w nm rid t :
  waits (announced w nm rid t) = [] /\ kills (announced w nm rid t) = 0%nat
  /\ awaited (announced w nm rid t) = 0%nat /\ spawns (announced w nm rid t) = [].
Proof. unfold announced. destruct (semaphore_locked w); repeat split. Qed.

Lemma waits_supervise w nm rid t : waits (snd (supervise w nm rid t)) = [t].
Proof.
  unfold supervise. destruct (comm w) as [out err rc| |e]; simpl.
  - now destruct (rc =? 0).
  - destruct (kill_error w); [reflexivity|]. now destruct (wait_error w).
  - reflexivity.
Qed.

Lemma spawns_supervise w nm rid t : spawns (snd (supervise w nm rid t)) = [].
Proof.
  unfold supervise. destruct (comm w) as [out err rc| |e]; simpl.
  - now destruct (rc =? 0).
  - destruct (kill_error w); [reflexivity|]. now destruct (wait_error w).
  - reflexivity.
Qed.

Lemma kills_supervise w nm rid t :
  kills (snd (supervise w nm rid t))
  = match comm w with TimedOut => 1%nat | _ => 0%nat end.
Proof.
  unfold supervise. destruct (comm w) as [out err rc| |e]; simpl.
  - now destruct (rc =? 0).
  - destruct (kill_error w); [reflexivity|]. now destruct (wait_error w).
  - reflexivity.
Qed.

Lemma awaited_supervise w nm rid t :
  awaited (snd (supervise w nm rid t))
  = match comm w, kill_error w with TimedOut, None => 1%nat | _, _ => 0%nat end.
Proof.
  unfold supervise. destruct (comm w) as [out err rc| |e]; simpl.
  - now destruct (rc =? 0).
  - destruct (kill_error w); [reflexivity|]. now destruct (wait_error w).
  - reflexivity.
Qed.

(** The message of the timeout result is one the route reports as a timeout. *)
Lemma classify_timeout_message t :
  classify ("Command exceeded timeout of " +:+ str_Z t +:+ "s") = EXECUTION_TIMEOUT.
Proof.
  unfold classify. rewrite lower_app.
  set (rest := lower (str_Z t +:+ "s")).
  assert (H : str_in "timeout" (lower "Command exceeded timeout of " +:+ rest) = true).
  { apply (str_in_later "timeout" "command exceeded " ("timeout" +:+ (" of " +:+ rest))).
    apply str_in_here. }
  now rewrite H.
Qed.

(** What [_validate_timeout] computes. *)
Lemma validate_timeout_cases s t :
  _validate_timeout s t
  = if t <? 1 then DEFAULT_TIMEOUT s else Z.min t (MAX_TIMEOUT s).
Proof.
  unfold _validate_timeout. destruct (t <? 1); [reflexivity|].
  destruct (Z.gtb_spec t (MAX_TIMEOUT s)); lia.
Qed.

(** C1, as the code has it.  For every call that resolves a command, whose
    arguments pass validation and whose child starts, the bounded wait on the
    child is issued once, with the timeout [_validate_timeout] returns for
    the override if given, else the command's default.  That value is the
    request limited to [MAX_TIMEOUT] when the request is at least 1, where it
    agrees with the clamp to 1..MAX_TIMEOUT, and it is [DEFAULT_TIMEOUT], not
    1, when the request is below 1. *)
Theorem effective_timeout s reg w nm args timeout rid cmd :
  reg !! nm = Some cmd ->
  validate_args cmd (default [] args) = true ->
  spawn_error w = None ->
  let t := requested cmd timeout in
  waits (snd (execute_command s reg w nm args timeout rid)) = [_validate_timeout s t]
  /\ (1 <= t -> _validate_timeout s t = Z.min t (MAX_TIMEOUT s))
  /\ (1 <= t -> 1 <= MAX_TIMEOUT s -> _validate_timeout s t = clamp t 1 (MAX_TIMEOUT s))
  /\ (t < 1 -> _validate_timeout s t = DEFAULT_TIMEOUT s).
Proof.
  intros Hreg Hargs Hspawn t.
  rewrite (execute_resolved _ _ _ _ _ _ _ _ Hreg Hargs Hspawn). cbn [snd]. fold t.
  rewrite !waits_app, waits_supervise.
  destruct (announced_quiet w nm rid (_validate_timeout s t)) as (-> & _).
  split; [reflexivity|].
  rewrite validate_timeout_cases. unfold clamp.
  repeat split; intros; destruct (Z.ltb_spec t 1); lia.
Qed.

(** C6.  A command name absent from the registry is answered with the
    failure result that names it, whose message carries the "not found"
    marker, and an empty trace: no process is spawned, the gate is not
    entered.  The same empty trace answers arguments that fail the schema
    of a registered command. *)
Theorem rejected_before_spawn s reg w nm args timeout rid :
  (reg !! nm = None ->
   execute_command s reg w nm args timeout rid
   = ({| success := false; stdout := ""; stderr := ""; exit_code := -1;
         duration_ms := 0; started_at := now_started w; completed_at := now_started w;
         error_message := Some ("Command '" +:+ nm +:+ "' not found in registry") |}, [])
   /\ str_in "not found" (lower ("Command '" +:+ nm +:+ "' not found in registry")) = true)
  /\ (forall cmd,
        reg !! nm = Some cmd ->
        validate_args cmd (default [] args) = false ->
        execute_command s reg w nm args timeout rid
        = ({| success := false; stdout := ""; stderr := ""; exit_code := -1;
              duration_ms := 0; started_at := now_started w; completed_at := now_started w;
              error_message := Some ("Invalid arguments for command '" +:+ nm +:+ "'") |}, [])).
Proof.
  split.
  - intros Hreg. split.
    + unfold execute_command, get_command. now rewrite Hreg.
    + rewrite !lower_app. apply str_in_later, str_in_later.
      apply (str_in_later "not found" "' " ("not found" +:+ " in registry")).
      apply str_in_here.
  - intros cmd Hreg Hargs.
    unfold execute_command, validate_command_args, get_command.
    now rewrite Hreg, Hargs.
Qed.

(** A kill is only ever issued after a timed-out wait on a started child. *)
Lemma kill_only_on_timeout s reg w nm args timeout rid :
  (0 < kills (snd (execute_command s reg w nm args timeout rid)))%nat ->
  comm w = TimedOut /\ spawn_error w = None /\ is_Some (reg !! nm).
Proof.
  unfold execute_command, validate_command_args, get_command.
  destruct (reg !! nm) as [cmd|] eqn:Hreg; [|cbn; intros H; exfalso; lia].
  destruct (validate_args cmd (default [] args)); [|cbn; intros H; exfalso; lia].
  destruct (spawn_error w) as [e|] eqn:Hspawn.
  - cbn [negb snd]. rewrite !kills_app.
    destruct (announced_quiet w nm rid (_validate_timeout s (requested cmd timeout)))
      as (_ & -> & _). cbn. intros H. exfalso. lia.
  - destruct (supervise w nm rid _) as [res ev] eqn:Hsup. cbn [negb snd].
    pose proof (kills_supervise w nm rid
      (_validate_timeout s (requested cmd timeout))) as Hk.
    rewrite Hsup in Hk. cbn [snd] in Hk.
    rewrite !kills_app, Hk.
    destruct (announced_quiet w nm rid (_validate_timeout s (requested cmd timeout)))
      as (_ & -> & _).
    destruct (comm w); cbn; intros H; [exfalso; lia | eauto | exfalso; lia].
Qed.

(** No call starts more than one child. *)
Lemma spawn_at_most_once s reg w nm args timeout rid :
  (length (spawns (snd (execute_command s reg w nm args timeout rid))) <= 1)%nat.
Proof.
  unfold execute_command, validate_command_args, get_command.
  destruct (reg !! nm) as [cmd|] eqn:Hreg; [|cbn; lia].
  destruct (validate_args cmd (default [] args)); [|cbn; lia].
  destruct (announced_quiet w nm rid (_validate_timeout s (requested cmd timeout)))
    as (_ & _ & _ & Hs).
  destruct (spawn_error w) as [e|] eqn:Hspawn.
  - cbn [negb snd]. rewrite !spawns_app, Hs. cbn. lia.
  - destruct (supervise w nm rid _) as [res ev] eqn:Hsup. cbn [negb snd].
    pose proof (spawns_supervise w nm rid
      (_validate_timeout s (requested cmd timeout))) as Hk.
    rewrite Hsup in Hk. cbn [snd] in Hk.
    rewrite !spawns_app, Hs, Hk. cbn. lia.
Qed.

(** C5, as the code has it.  When the wait on a started child times out,
    the executor calls [kill] once and, unless that call raises, awaits
    [wait] once; in every case it returns success=false, exit_code=-1, empty
    output and the message "Command exceeded timeout of <t>s", which the
    route reports as EXECUTION_TIMEOUT.  The child was spawned once and is
    not spawned again.  In any call at all, a kill is issued only after such
    a timeout, and at most one child is spawned. *)
Theorem timeout_path s reg w nm args timeout rid :
  let res := fst (execute_command s reg w nm args timeout rid) in
  let tr := snd (execute_command s reg w nm args timeout rid) in
  ((0 < kills tr)%nat -> comm w = TimedOut /\ spawn_error w = None /\ is_Some (reg !! nm))
  /\ (length (spawns tr) <= 1)%nat
  /\ (forall cmd,
        reg !! nm = Some cmd ->
        validate_args cmd (default [] args) = true ->
        spawn_error w = None ->
        comm w = TimedOut ->
        let t := _validate_timeout s (requested cmd timeout) in
        success res = false /\ exit_code res = -1
        /\ stdout res = "" /\ stderr res = ""
        /\ error_message res = Some ("Command exceeded timeout of " +:+ str_Z t +:+ "s")
        /\ classify ("Command exceeded timeout of " +:+ str_Z t +:+ "s") = EXECUTION_TIMEOUT
        /\ length (spawns tr) = 1%nat
        /\ kills tr = 1%nat
        /\ awaited tr = match kill_error w with Some _ => 0%nat | None => 1%nat end).
Proof.
  intros res tr.
  split; [apply kill_only_on_timeout|]. split; [apply spawn_at_most_once|].
  intros cmd Hreg Hargs Hspawn Hc t. subst res tr.
  rewrite (execute_resolved _ _ _ _ _ _ _ _ Hreg Hargs Hspawn). cbn [fst snd]. fold t.
  destruct (announced_quiet w nm rid t) as (_ & Hk & Ha & Hs).
  rewrite !spawns_app, !kills_app, !awaited_app, Hk, Ha, Hs,
    spawns_supervise, kills_supervise, awaited_supervise.
  rewrite Hc. unfold supervise. rewrite Hc.
  cbn [fst success exit_code stdout stderr error_message].
  do 5 (split; [reflexivity|]).
  split; [apply classify_timeout_message|].
  do 2 (split; [reflexivity|]).
  now destruct (kill_error w).
Qed.

End ExecutorSpec.

Module ExecutorExamples.
Import Text Executor ExecutorInputs.

(** An override of 0 on a whitelisted command with the default settings:
    the wait is issued with 30 seconds, where the clamp to 1..120 gives 1. *)
Lemma override_zero_waits_default :
  let tr := snd (execute_command settings whitelisted in_time "send_clear" None (Some 0) "r1") in
  waits tr = [30] /\ clamp 0 1 (MAX_TIMEOUT settings) = 1
  /\ waits tr <> [clamp 0 1 (MAX_TIMEOUT settings)].
Proof. vm_compute. repeat split; discriminate. Qed.

(** An override above the maximum is cut down to it. *)
Lemma effective_timeout_witness :
  waits (snd (execute_command settings whitelisted in_time "send_clear" None (Some 500) "r1"))
  = [120].
Proof.
  destruct (ExecutorSpec.effective_timeout settings whitelisted in_time "send_clear"
              None (Some 500) "r1" send_clear) as (Hw & _);
    [vm_compute; reflexivity | reflexivity | reflexivity |].
  exact Hw.
Defined.

Lemma rejected_before_spawn_witness :
  snd (execute_command settings whitelisted in_time "reboot" None None "r1") = []
  /\ error_message (fst (execute_command settings whitelisted in_time "reboot" None None "r1"))
     = Some "Command 'reboot' not found in registry"
  /\ snd (execute_command settings whitelisted in_time "send_clear"
            (Some [("force", VBool true)]) None "r1") = [].
Proof.
  destruct (ExecutorSpec.rejected_before_spawn settings whitelisted in_time "reboot"
              None None "r1") as [Hunknown _].
  destruct (ExecutorSpec.rejected_before_spawn settings whitelisted in_time "send_clear"
              (Some [("force", VBool true)]) None "r1") as [_ Hargs].
  destruct Hunknown as [-> _]; [vm_compute; reflexivity|].
  rewrite (Hargs send_clear); [|vm_compute; reflexivity|reflexivity].
  repeat split.
Defined.

(** A child that is gone when [kill] reaches it: the wait timed out, the
    kill was called and raised, and [wait] was not awaited. *)
Lemma timeout_without_wait :
  let tr := snd (execute_command settings whitelisted overrun_gone "send_clear" None None "r1") in
  comm overrun_gone = TimedOut /\ kills tr = 1%nat /\ awaited tr = 0%nat.
Proof. vm_compute. repeat split. Qed.

(** The default timeout of 60 on a child that overruns. *)
Lemma timeout_path_witness :
  let res := fst (execute_command settings whitelisted overrun "send_clear" None None "r1") in
  let tr := snd (execute_command settings whitelisted overrun "send_clear" None None "r1") in
  success res = false /\ exit_code res = -1
  /\ error_message res = Some "Command exceeded timeout of 60s"
  /\ kills tr = 1%nat /\ awaited tr = 1%nat /\ length (spawns tr) = 1%nat.
Proof.
  destruct (ExecutorSpec.timeout_path settings whitelisted overrun "send_clear"
              None None "r1") as (_ & _ & H).
  destruct (H send_clear) as (Hs & He & _ & _ & Hm & _ & Hsp & Hk & Ha);
    [vm_compute; reflexivity | reflexivity | reflexivity | reflexivity |].
  cbv zeta. rewrite Hs, He, Hm, Hk, Ha, Hsp. repeat split.
Defined.

End ExecutorExamples.

(** ** The modem driver *)

Module ModemSpec.
Import Text TextFacts Codec Modem.

(** *** Texts that the ascii codec accepts *)

Lemma all_ascii_app a b : all_ascii (a +:+ b) = all_ascii a && all_ascii b.
Proof.
  induction a as [|c a IH]; [reflexivity|].
  change (String c a +:+ b) with (String c (a +:+ b)).
  cbn [all_ascii]. now rewrite IH, andb_assoc.
Qed.

(** A command is sent with its carriage return exactly when it is ASCII. *)
Lemma all_ascii_command cmd : all_ascii (cmd +:+ CR) = all_ascii cmd.
Proof. rewrite all_ascii_app. cbn. now rewrite andb_true_r. Qed.


(** *** Running computations *)

Lemma bind_run {A B} (m : M A) (f : A -> M B) l :
  (m ≫= f) l
  = match m l with
    | (inl a, l1, ev1) => let '(r2, l2, ev2) := f a l1 in (r2, l2, ev1 ++ ev2)
    | (inr code, l1, ev1) => (inr code, l1, ev1)
    end.
Proof.
  unfold mbind, M_bind, bind. destruct (m l) as [[r l1] ev1]. now destruct r.
Qed.












(** *** The primitives are quiet and return *)













(** *** One send *)

Lemma emit_run {B} e (k : M B) l :
  (emit e ;; k) l = (fst (fst (k l)), snd (fst (k l)), e :: snd (k l)).
Proof. rewrite bind_run. simpl. now destruct (k l) as [[r l'] ev]. Qed.

Lemma ret_run {A} (a : A) l : (mret a : M A) l = (inl a, l, []).
Proof. reflexivity. Qed.













(** *** The batch *)






(** C2, as the code has it.  Once the prompt was obtained and the text
    transmitted, for every response [resp] that [read_until] returns,
    [send_sms_to_number] returns [resp] with delivered = true exactly when
    [resp] contains both "+CMGS" and "OK", and then logs the reference that
    the pattern \+CMGS:\s*(\d+) finds in it.  For the response "+CMGS: 42"
    followed by "OK" the result is delivered = true with reference "42". *)
Theorem delivered_iff_ack_and_ok number msg l prompt l1 ev1 ok2 resp l2 ev2 :
  send_at ("AT+CMGS=" +:+ QUOTE +:+ number +:+ QUOTE) ">" 5 l = (inl (true, prompt), l1, ev1) ->
  read_until ["+CMGS"; "OK"; "ERROR"] 60 l1 = (inl (ok2, resp), l2, ev2) ->
  let delivered := str_in "+CMGS" resp && str_in "OK" resp in
  send_sms_to_number number msg l
  = (inl (delivered, resp), l2,
     [Log INFO ("Sending SMS to " +:+ number)] ++ ev1
     ++ [Write (encode_replace msg); Write CTRL_Z; Flush] ++ ev2
     ++ [if delivered
         then Log INFO ("✅ Sent to " +:+ number +:+ " (ref " +:+ msg_ref resp +:+ ")")
         else Log ERROR ("❌ Failed to send to " +:+ number +:+ ". Response: " +:+ resp)])
  /\ (delivered = true <-> str_in "+CMGS" resp = true /\ str_in "OK" resp = true)
  /\ (resp = ModemInputs.ACK_42 -> delivered = true /\ msg_ref resp = "42").
Proof.
  intros E1 E2 delivered. split; [|split].
  - unfold send_sms_to_number. rewrite emit_run, bind_run, E1. cbn [negb].
    rewrite !emit_run, bind_run, E2. fold delivered.
    destruct delivered; rewrite emit_run, ret_run; cbn [fst snd]; reflexivity.
  - subst delivered. apply andb_true_iff.
  - intros ->. now vm_compute.
Qed.



(** *** The whole run *)



End ModemSpec.

Module ModemExamples.
Import Text Codec Modem ModemInputs.

(** The prompt arrives, the text is sent, and the poll that follows finds
    the first line of the acknowledgment, "+CMGS: 42", before the final
    "OK" has arrived: [read_until] returns at once, and the send is
    reported as not delivered although the response carries reference 42. *)
Lemma ack_without_ok_not_delivered :
  fst (fst (send_at ("AT+CMGS=" +:+ QUOTE +:+ "+15550001" +:+ QUOTE) ">" 5
              [PROMPT; ACK_42_FIRST_LINE; OK]))
  = inl (true, PROMPT)
  /\ fst (fst (send_sms_to_number "+15550001" "Outage ongoing"
                 [PROMPT; ACK_42_FIRST_LINE; OK]))
     = inl (false, ACK_42_FIRST_LINE)
  /\ str_in "+CMGS" ACK_42_FIRST_LINE = true
  /\ cmgs_search ACK_42_FIRST_LINE = Some "42".
Proof. vm_compute. repeat split. Qed.

(** The modem of the specification: "+CMGS: 42", then "OK". *)
Lemma delivered_iff_ack_and_ok_witness :
  fst (fst (send_sms_to_number "+15550001" "Outage ongoing" [PROMPT; ACK_42]))
  = inl (true, ACK_42)
  /\ msg_ref ACK_42 = "42".
Proof.
  destruct (ModemSpec.delivered_iff_ack_and_ok "+15550001" "Outage ongoing"
              [PROMPT; ACK_42] PROMPT [ACK_42]
              (snd (send_at ("AT+CMGS=" +:+ QUOTE +:+ "+15550001" +:+ QUOTE) ">" 5
                      [PROMPT; ACK_42]))
              true ACK_42 []
              (snd (read_until ["+CMGS"; "OK"; "ERROR"] 60 [ACK_42])))
    as (E & _ & R); [vm_compute; reflexivity | vm_compute; reflexivity |].
  rewrite E. split; [reflexivity | apply R; reflexivity].
Defined.







End ModemExamples.

(** ** More of the connectivity monitor *)

Module MonitorRunsSpec.
Import Text Monitor MonitorRuns.

Section Paths.

Variable script_path : string -> string.

Lemma execs_app tr1 tr2 : execs (tr1 ++ tr2) = execs tr1 ++ execs tr2.
Proof. apply omap_app. Qed.

Lemma sleeps_app tr1 tr2 : sleeps (tr1 ++ tr2) = sleeps tr1 ++ sleeps tr2.
Proof. apply omap_app. Qed.

Lemma run_script_budget nm o :
  (length (execs (run_script script_path nm o)) <= 1)%nat
  /\ sleeps (run_script script_path nm o) = [].
Proof. destruct o as [|rc out err|e]; simpl; [| destruct (rc =? 0) |]; simpl; split; (lia || reflexivity). Qed.

Lemma run_ping_quiet ip n o :
  execs (snd (run_ping ip n o)) = [] /\ sleeps (snd (run_ping ip n o)) = [].
Proof. destruct o; split; reflexivity. Qed.

Lemma tick_counts cfg env st :
  let tr := snd (tick script_path cfg env st) in
  head (pings tr) = Some (internet_ip cfg, ping_count cfg)
  /\ (length (pings tr) <= 2)%nat
  /\ (length (execs tr) <= 1)%nat
  /\ sleeps tr = [].
Proof.
  cbv zeta. unfold tick.
  pose proof (MonitorSpec.pings_run_ping (internet_ip cfg) (ping_count cfg) (primary env)) as Hp.
  pose proof (run_ping_quiet (internet_ip cfg) (ping_count cfg) (primary env)) as [He Hs].
  destruct (run_ping (internet_ip cfg) (ping_count cfg) (primary env)) as [ok ev].
  cbn [snd] in *.
  pose proof (MonitorSpec.pings_run_ping (router_ip cfg) 1 (router env)) as Hpr.
  pose proof (run_ping_quiet (router_ip cfg) 1 (router env)) as [Her Hsr].
  destruct (run_ping (router_ip cfg) 1 (router env)) as [rok evr].
  cbn [snd] in *.
  pose proof (run_script_budget (clear_script cfg) (script env)) as [B1 S1].
  pose proof (run_script_budget (alert_network_script cfg) (script env)) as [B2 S2].
  pose proof (run_script_budget (alert_power_script cfg) (script env)) as [B3 S3].
  pose proof (run_script_budget (reminder_script cfg) (script env)) as [B4 S4].
  destruct ok, (in_outage st); cbn [negb andb snd];
    [ | | destruct (Qle_bool _ _)
      | destruct (failure_threshold cfg <=? failure_streak st + 1); [destruct rok|] ];
    cbn [snd];
    rewrite ?MonitorSpec.pings_app, ?execs_app, ?sleeps_app, ?length_app,
      ?MonitorSpec.pings_run_script, ?Hp, ?Hpr, ?He, ?Hs, ?Her, ?Hsr, ?S1, ?S2, ?S3, ?S4;
    cbn; repeat split; lia.
Qed.

(** Whatever the state and the outside world, one tick probes the primary
    target first, issues at most one further ping, starts at most one script
    and does not sleep. *)
Theorem tick_budget cfg env st :
  let tr := snd (tick script_path cfg env st) in
  head (pings tr) = Some (internet_ip cfg, ping_count cfg)
  /\ (length (pings tr) <= 2)%nat
  /\ (length (execs tr) <= 1)%nat
  /\ sleeps tr = [].
Proof. apply tick_counts. Qed.

Lemma main_loop_split cfg envs1 envs2 st :
  main_loop script_path cfg (envs1 ++ envs2) st
  = (fst (main_loop script_path cfg envs2 (fst (main_loop script_path cfg envs1 st))),
     snd (main_loop script_path cfg envs1 st)
     ++ snd (main_loop script_path cfg envs2 (fst (main_loop script_path cfg envs1 st)))).
Proof.
  revert st. induction envs1 as [|env envs1 IH]; intros st; simpl.
  - now destruct (main_loop script_path cfg envs2 st).
  - destruct (tick script_path cfg env st) as [st1 ev].
    rewrite IH.
    destruct (main_loop script_path cfg envs1 st1) as [st2 evs]. cbn [fst snd].
    now rewrite <- !app_assoc.
Qed.

(** The state after one more tick. *)
Lemma main_loop_snoc cfg envs env st :
  fst (main_loop script_path cfg (envs ++ [env]) st)
  = fst (tick script_path cfg env (fst (main_loop script_path cfg envs st))).
Proof.
  rewrite main_loop_split. cbn [fst main_loop].
  destruct (tick script_path cfg env _) as [st1 ev]. reflexivity.
Qed.

Lemma trailing_snoc cfg envs env :
  trailing_failures cfg (envs ++ [env])
  = if reachable cfg env then O else S (trailing_failures cfg envs).
Proof. unfold trailing_failures. now rewrite rev_app_distr. Qed.

(** The streak and the flag after a tick, from the streak and flag before,
    when the flag is the one the invariant prescribes. *)
Lemma tick_invariant cfg env st (n : nat) :
  failure_streak st = Z.of_nat n ->
  in_outage st = (0 <? Z.of_nat n) && (failure_threshold cfg <=? Z.of_nat n) ->
  let st' := fst (tick script_path cfg env st) in
  let n' := if reachable cfg env then O else S n in
  failure_streak st' = Z.of_nat n'
  /\ in_outage st' = (0 <? Z.of_nat n') && (failure_threshold cfg <=? Z.of_nat n').
Proof.
  intros Hs Hf. cbv zeta. unfold tick, reachable.
  destruct (run_ping (internet_ip cfg) (ping_count cfg) (primary env)) as [ok ev].
  cbn [fst]. destruct ok.
  - destruct (in_outage st); cbn [fst failure_streak in_outage]; split; reflexivity.
  - rewrite Hs, Hf.
    replace (Z.of_nat n + 1) with (Z.of_nat (S n)) by lia.
    assert (Hpos : (0 <? Z.of_nat (S n)) = true) by (apply Z.ltb_lt; lia).
    rewrite Hpos. cbn [andb].
    destruct (0 <? Z.of_nat n) eqn:Hn; cbn [andb negb].
    + destruct (failure_threshold cfg <=? Z.of_nat n) eqn:Ht; cbn [negb andb].
      * assert (Ht' : (failure_threshold cfg <=? Z.of_nat (S n)) = true)
          by (apply Z.leb_le; apply Z.leb_le in Ht; lia).
        rewrite Ht'. destruct (Qle_bool _ _); cbn [fst failure_streak in_outage]; now split.
      * destruct (failure_threshold cfg <=? Z.of_nat (S n)).
        -- destruct (run_ping (router_ip cfg) 1 (router env)) as [rok evr].
           cbn [fst failure_streak in_outage]. now split.
        -- cbn [fst failure_streak in_outage]. now split.
    + destruct (failure_threshold cfg <=? Z.of_nat (S n)).
      * destruct (run_ping (router_ip cfg) 1 (router env)) as [rok evr].
        cbn [fst failure_streak in_outage]. now split.
      * cbn [fst failure_streak in_outage]. now split.
Qed.

(** After any run of the loop from its initial state, the failure streak is
    the number of ticks since the primary target was last reachable, and the
    monitor is in outage exactly when that number is at least 1 and at
    least the failure threshold. *)
Theorem outage_iff_trailing_failures cfg envs :
  let st := fst (main_loop script_path cfg envs initial) in
  let n := Z.of_nat (trailing_failures cfg envs) in
  failure_streak st = n
  /\ (in_outage st = true <-> 1 <= n /\ failure_threshold cfg <= n).
Proof.
  cbv zeta.
  assert (H : failure_streak (fst (main_loop script_path cfg envs initial))
              = Z.of_nat (trailing_failures cfg envs)
              /\ in_outage (fst (main_loop script_path cfg envs initial))
                 = (0 <? Z.of_nat (trailing_failures cfg envs))
                   && (failure_threshold cfg <=? Z.of_nat (trailing_failures cfg envs))).
  { induction envs as [|env envs IH] using rev_ind.
    - split; reflexivity.
    - rewrite main_loop_snoc, trailing_snoc. destruct IH as [IHs IHf].
      exact (tick_invariant cfg env _ _ IHs IHf). }
  destruct H as [Hs Hf]. split; [exact Hs|].
  rewrite Hf, andb_true_iff, Z.ltb_lt, Z.leb_le. lia.
Qed.

End Paths.

End MonitorRunsSpec.

(** ** Loading the monitor configuration *)

Module MonitorConfigSpec.
Import Text Monitor MonitorConfig.

Lemma eqb_empty v : String.eqb v "" = true <-> v = "".
Proof. apply String.eqb_eq. Qed.

(** Folding the overrides over a list of keys: a key of the list with a
    non-empty value in the section takes that value, every other key keeps
    what it had. *)
Lemma fold_override_lookup sec ks : forall cfg k,
  foldl (override sec) cfg ks !! k
  = if bool_decide (k ∈ ks)
    then match sec !! k with
         | Some v => if String.eqb v "" then cfg !! k else Some v
         | None => cfg !! k
         end
    else cfg !! k.
Proof.
  induction ks as [|k0 ks IH]; intros cfg k; [reflexivity|].
  cbn [foldl]. rewrite IH.
  destruct (decide (k = k0)) as [->|Hne].
  - rewrite (bool_decide_eq_true_2 (k0 ∈ k0 :: ks)) by apply list_elem_of_here.
    unfold override.
    destruct (sec !! k0) as [v|] eqn:Hv.
    + destruct (String.eqb v ""); [now destruct (bool_decide _)|].
      rewrite lookup_insert_eq. now destruct (bool_decide _).
    + now destruct (bool_decide _).
  - assert (Hin : bool_decide (k ∈ k0 :: ks) = bool_decide (k ∈ ks)).
    { apply bool_decide_ext. rewrite elem_of_cons. tauto. }
    rewrite Hin.
    assert (Hk : override sec cfg k0 !! k = cfg !! k).
    { unfold override. destruct (sec !! k0) as [v|]; [|reflexivity].
      destruct (String.eqb v ""); [reflexivity|]. now rewrite lookup_insert_ne. }
    now rewrite Hk.
Qed.

(** What the merged dictionary holds: the keys of [DEFAULTS] and no other,
    each with the section's value when that is present and not empty, and
    with the default otherwise. *)
Lemma merged_lookup section k :
  merged section !! k
  = match (list_to_map DEFAULTS_text : gmap string string) !! k with
    | Some d => Some (chosen section k d)
    | None => None
    end.
Proof.
  unfold merged, chosen. destruct section as [sec|]; [|now destruct (_ !! k)].
  rewrite fold_override_lookup.
  destruct ((list_to_map DEFAULTS_text : gmap string string) !! k) as [d|] eqn:Hd.
  - assert (Hin : k ∈ DEFAULTS_text.*1).
    { apply elem_of_list_to_map_2 in Hd. apply list_elem_of_fmap. now exists (k, d). }
    rewrite (bool_decide_eq_true_2 _ Hin).
    destruct (sec !! k) as [v|]; [|reflexivity]. now destruct (String.eqb v "").
  - assert (Hout : k ∉ DEFAULTS_text.*1).
    { now apply not_elem_of_list_to_map_2. }
    now rewrite (bool_decide_eq_false_2 _ Hout).
Qed.

Lemma item_merged section k d :
  (list_to_map DEFAULTS_text : gmap string string) !! k = Some d ->
  item (merged section) k = chosen section k d.
Proof. intros H. unfold item. now rewrite merged_lookup, H. Qed.

(** [load_config] in closed form. *)
Lemma load_config_chosen int_ section :
  load_config int_ section
  = (interval ← int_ (chosen section "check_interval_seconds" "30");
     count ← int_ (chosen section "ping_count" "4");
     threshold ← int_ (chosen section "failure_threshold" "4");
     reminder ← int_ (chosen section "reminder_interval_seconds" "300");
     Some {| monitor :=
               {| router_ip := chosen section "router_ip" "172.168.133.1";
                  internet_ip := chosen section "internet_ip" "8.8.8.8";
                  check_interval := interval;
                  ping_count := count;
                  failure_threshold := threshold;
                  reminder_interval := reminder;
                  alert_power_script :=
                    chosen section "alert_power_script" "send_alert_power_sms.py";
                  alert_network_script :=
                    chosen section "alert_network_script" "send_alert_network_sms.py";
                  reminder_script := chosen section "reminder_script" "send_reminder_sms.py";
                  clear_script := chosen section "clear_script" "send_clear_sms.py" |};
             log_file := chosen section "log_file" "network_monitor.log";
             log_level := chosen section "log_level" "INFO" |}).
Proof.
  unfold load_config.
  rewrite (item_merged section "check_interval_seconds" "30" eq_refl),
    (item_merged section "ping_count" "4" eq_refl),
    (item_merged section "failure_threshold" "4" eq_refl),
    (item_merged section "reminder_interval_seconds" "300" eq_refl),
    (item_merged section "router_ip" "172.168.133.1" eq_refl),
    (item_merged section "internet_ip" "8.8.8.8" eq_refl),
    (item_merged section "alert_power_script" "send_alert_power_sms.py" eq_refl),
    (item_merged section "alert_network_script" "send_alert_network_sms.py" eq_refl),
    (item_merged section "reminder_script" "send_reminder_sms.py" eq_refl),
    (item_merged section "clear_script" "send_clear_sms.py" eq_refl),
    (item_merged section "log_file" "network_monitor.log" eq_refl),
    (item_merged section "log_level" "INFO" eq_refl).
  reflexivity.
Qed.

(** The configuration [load_config] returns, field by field: each text
    field is the section's value when the key is present with a non-empty
    value and the default otherwise; each numeric field is [int] of the text
    chosen the same way, so that the load fails when one of those four
    conversions does. *)
Theorem load_config_fields int_ section :
  (int_ (chosen section "check_interval_seconds" "30") = None
   \/ int_ (chosen section "ping_count" "4") = None
   \/ int_ (chosen section "failure_threshold" "4") = None
   \/ int_ (chosen section "reminder_interval_seconds" "300") = None ->
   load_config int_ section = None)
  /\ (forall r,
        load_config int_ section = Some r ->
        router_ip (monitor r) = chosen section "router_ip" "172.168.133.1"
        /\ internet_ip (monitor r) = chosen section "internet_ip" "8.8.8.8"
        /\ int_ (chosen section "check_interval_seconds" "30")
           = Some (check_interval (monitor r))
        /\ int_ (chosen section "ping_count" "4") = Some (ping_count (monitor r))
        /\ int_ (chosen section "failure_threshold" "4")
           = Some (failure_threshold (monitor r))
        /\ int_ (chosen section "reminder_interval_seconds" "300")
           = Some (reminder_interval (monitor r))
        /\ alert_power_script (monitor r)
           = chosen section "alert_power_script" "send_alert_power_sms.py"
        /\ alert_network_script (monitor r)
           = chosen section "alert_network_script" "send_alert_network_sms.py"
        /\ reminder_script (monitor r)
           = chosen section "reminder_script" "send_reminder_sms.py"
        /\ clear_script (monitor r) = chosen section "clear_script" "send_clear_sms.py"
        /\ log_file r = chosen section "log_file" "network_monitor.log"
        /\ log_level r = chosen section "log_level" "INFO").
Proof.
  rewrite load_config_chosen.
  destruct (int_ (chosen section "check_interval_seconds" "30")) as [i|];
    destruct (int_ (chosen section "ping_count" "4")) as [c|];
    destruct (int_ (chosen section "failure_threshold" "4")) as [t|];
    destruct (int_ (chosen section "reminder_interval_seconds" "300")) as [m|];
    cbn; (split; [intros [H|[H|[H|H]]]; (discriminate || reflexivity)
                 | intros r Hr; try discriminate]).
  injection Hr as <-. cbn. repeat split.
Qed.

(** [load_config] reads the section only at the keys of [DEFAULTS], and an
    empty value counts as no value: adding a key that is not in [DEFAULTS],
    or giving any key the empty value in place of none, changes nothing;
    and a missing file or section is an empty section. *)
Theorem load_config_ignores int_ sec k v :
  (k ∉ DEFAULTS_text.*1 \/ (v = "" /\ sec !! k = None)) ->
  load_config int_ (Some (<[k := v]> sec)) = load_config int_ (Some sec)
  /\ load_config int_ None = load_config int_ (Some ∅).
Proof.
  intros H.
  assert (Hsame : forall k' d,
            (list_to_map DEFAULTS_text : gmap string string) !! k' = Some d ->
            chosen (Some (<[k := v]> sec)) k' d = chosen (Some sec) k' d).
  { intros k' d Hd. unfold chosen.
    destruct (decide (k = k')) as [<-|Hne]; [|now rewrite lookup_insert_ne].
    rewrite lookup_insert_eq.
    destruct H as [Hout | [-> Hnone]].
    - exfalso. apply Hout. apply elem_of_list_to_map_2 in Hd.
      apply list_elem_of_fmap. now exists (k, d).
    - now rewrite Hnone. }
  split.
  - rewrite !load_config_chosen.
    rewrite (Hsame "check_interval_seconds" "30" eq_refl),
      (Hsame "ping_count" "4" eq_refl),
      (Hsame "failure_threshold" "4" eq_refl),
      (Hsame "reminder_interval_seconds" "300" eq_refl),
      (Hsame "router_ip" "172.168.133.1" eq_refl),
      (Hsame "internet_ip" "8.8.8.8" eq_refl),
      (Hsame "alert_power_script" "send_alert_power_sms.py" eq_refl),
      (Hsame "alert_network_script" "send_alert_network_sms.py" eq_refl),
      (Hsame "reminder_script" "send_reminder_sms.py" eq_refl),
      (Hsame "clear_script" "send_clear_sms.py" eq_refl),
      (Hsame "log_file" "network_monitor.log" eq_refl),
      (Hsame "log_level" "INFO" eq_refl).
    reflexivity.
  - rewrite !load_config_chosen. reflexivity.
Qed.

End MonitorConfigSpec.

(** ** More of the command executor *)

Module ExecutorMoreSpec.
Import Text TextFacts Executor ExecutorInputs ExecutorTraces.

(** With settings in which [1 <= DEFAULT_TIMEOUT <= MAX_TIMEOUT], the
    validated timeout always lies in [1, MAX_TIMEOUT], leaves a value of that
    range as it is, and validating twice is validating once. *)
Theorem validate_timeout_range s t :
  1 <= DEFAULT_TIMEOUT s <= MAX_TIMEOUT s ->
  1 <= _validate_timeout s t <= MAX_TIMEOUT s
  /\ (1 <= t <= MAX_TIMEOUT s -> _validate_timeout s t = t)
  /\ _validate_timeout s (_validate_timeout s t) = _validate_timeout s t.
Proof.
  intros H. unfold _validate_timeout.
  destruct (Z.ltb_spec t 1); destruct (Z.gtb_spec t (MAX_TIMEOUT s));
    repeat match goal with
           | |- context [?a <? ?b] => destruct (Z.ltb_spec a b)
           | |- context [?a >? ?b] => destruct (Z.gtb_spec a b)
           end; lia.
Qed.

Lemma dict_get_other {A} k k' (v : A) d :
  k <> k' -> dict_get k ((k', v) :: d) = dict_get k d.
Proof.
  intros H. simpl. destruct (String.eqb_spec k k'); [contradiction | reflexivity].
Qed.

Lemma dict_get_none {A} k (d : pydict A) : k ∉ keys d -> dict_get k d = None.
Proof.
  induction d as [|[k' v] d IH]; intros H; [reflexivity|].
  unfold keys in *. cbn in H. apply not_elem_of_cons in H as [Hne Hd].
  rewrite dict_get_other by exact Hne. auto.
Qed.

(** [validate_args]: a command with an empty schema accepts the empty
    argument dictionary and nothing else.  A command with a schema checks
    only the arguments it names: no argument is required, and an argument
    whose name is not in the schema is accepted whatever its value. *)
Theorem validate_args_cases cmd args :
  (args_schema cmd = [] -> (validate_args cmd args = true <-> args = []))
  /\ (args_schema cmd <> [] -> validate_args cmd [] = true)
  /\ (args_schema cmd <> [] ->
      forall k v, k ∉ keys (args_schema cmd) ->
        validate_args cmd ((k, v) :: args) = validate_args cmd args).
Proof.
  unfold validate_args. split; [|split].
  - intros ->. destruct args; simpl; split; (reflexivity || discriminate).
  - intros Hne. destruct (args_schema cmd) as [|p schema]; [congruence|].
    apply forallb_forall. now intros [key ty] _.
  - intros Hne k v Hk. destruct (args_schema cmd) as [|p schema] eqn:Hs; [congruence|].
    clear Hne Hs. revert Hk. generalize (p :: schema). intros sch Hk.
    induction sch as [|[key ty] sch IH]; [reflexivity|].
    unfold keys in Hk. cbn in Hk. apply not_elem_of_cons in Hk as [Hne Hk].
    cbn [forallb]. rewrite IH by exact Hk.
    rewrite dict_get_other by congruence. reflexivity.
Qed.

(** *** The registry at startup *)

Lemma register_all_ok exists_ cmds : forall reg,
  Forall (fun c => exists_ (script_path c) = true) cmds ->
  register_all exists_ cmds reg = inr (foldl (fun r c => <[name c := c]> r) reg cmds).
Proof.
  induction cmds as [|c cmds IH]; intros reg H; [reflexivity|].
  inversion H as [|? ? Hc Hrest]; subst. cbn [register_all foldl]. rewrite Hc. auto.
Qed.

Lemma register_all_fails exists_ cmds : forall reg msg,
  register_all exists_ cmds reg = inl msg ->
  exists c, c ∈ cmds /\ exists_ (script_path c) = false
            /\ msg = "Script for command '" +:+ name c +:+ "' not found: " +:+ script_path c.
Proof.
  induction cmds as [|c cmds IH]; intros reg msg H; [discriminate|].
  cbn [register_all] in H. destruct (exists_ (script_path c)) eqn:Hc.
  - destruct (IH _ _ H) as (c' & Hin & Hrest). exists c'. split; [now right | exact Hrest].
  - injection H as <-. exists c. split; [left | auto].
Qed.

Lemma registered_lookup cmds : forall (reg : registry) n c,
  foldl (fun r c => <[name c := c]> r) reg cmds !! n = Some c ->
  (c ∈ cmds /\ name c = n) \/ reg !! n = Some c.
Proof.
  induction cmds as [|c0 cmds IH]; intros reg n c H; [now right|].
  cbn [foldl] in H. destruct (IH _ _ _ H) as [[Hin Hn]|Hreg].
  - left. split; [now right | exact Hn].
  - destruct (decide (name c0 = n)) as [<-|Hne].
    + rewrite lookup_insert_eq in Hreg. injection Hreg as <-. left. split; [left | reflexivity].
    + rewrite lookup_insert_ne in Hreg by exact Hne. now right.
Qed.

Lemma registered_names cmds : forall (reg : registry) n,
  is_Some (foldl (fun r c => <[name c := c]> r) reg cmds !! n)
  <-> n ∈ name <$> cmds \/ is_Some (reg !! n).
Proof.
  induction cmds as [|c0 cmds IH]; intros reg n; cbn [foldl fmap list_fmap].
  - rewrite elem_of_nil. tauto.
  - rewrite IH, elem_of_cons.
    destruct (decide (name c0 = n)) as [<-|Hne].
    + rewrite lookup_insert_eq. split; [intros [?|?]; auto | intros _; right; eauto].
    + rewrite lookup_insert_ne by exact Hne. split; [tauto|]. intros [[?|?]|?]; auto; congruence.
Qed.

Lemma register_all_missing exists_ c cmds : forall reg : registry,
  c ∈ cmds -> exists_ (script_path c) = false ->
  exists msg, register_all exists_ cmds reg = inl msg.
Proof.
  induction cmds as [|c0 cmds IH]; intros reg Hin Hc; [now apply elem_of_nil in Hin|].
  cbn [register_all]. destruct (exists_ (script_path c0)) eqn:H0; [|eauto].
  apply elem_of_cons in Hin as [->|Hin]; [congruence | auto].
Qed.

(** Registering a list of commands in an empty registry. *)
Lemma register_all_cases exists_ cmds :
  match register_all exists_ cmds ∅ with
  | inr reg =>
      Forall (fun c => exists_ (script_path c) = true) cmds
      /\ (forall n, is_Some (reg !! n) <-> n ∈ name <$> cmds)
      /\ (forall n c, reg !! n = Some c -> c ∈ cmds /\ name c = n)
  | inl msg =>
      exists c, c ∈ cmds /\ exists_ (script_path c) = false
                /\ msg = "Script for command '" +:+ name c +:+ "' not found: "
                         +:+ script_path c
  end.
Proof.
  destruct (register_all exists_ cmds ∅) as [msg|reg] eqn:E.
  - eapply register_all_fails, E.
  - assert (Hall : Forall (fun c => exists_ (script_path c) = true) cmds).
    { apply Forall_forall. intros c Hc.
      destruct (exists_ (script_path c)) eqn:Hex; [reflexivity|]. exfalso.
      destruct (register_all_missing exists_ c cmds ∅ Hc Hex) as [m Hm]. congruence. }
    rewrite (register_all_ok _ _ _ Hall) in E.
    assert (Hreg : reg = foldl (fun r c => <[name c := c]> r) (∅ : registry) cmds)
      by congruence.
    clear E. subst reg.
    split; [exact Hall|]. split.
    + intros n. split.
      * intros H. apply registered_names in H as [H|[x Hx]]; [exact H|].
        now rewrite lookup_empty in Hx.
      * intros H. apply registered_names. now left.
    + intros n c H. apply registered_lookup in H as [H|H]; [exact H|].
      now rewrite lookup_empty in H.
Qed.

(** Startup succeeds exactly when the script of every whitelisted command
    exists.  The registry then knows the four command names and no other,
    and stores under each name a definition of the whitelist that carries
    that name; [is_valid_command] and [get_command] agree on it.
    Otherwise startup fails with a message that names a command whose script
    is missing, and there is no registry. *)
Theorem initialize_commands_cases scripts_dir exists_ :
  match initialize_commands scripts_dir exists_ with
  | inr reg =>
      Forall (fun c => exists_ (script_path c) = true) (whitelist scripts_dir)
      /\ (forall n, is_valid_command reg n = true
                    <-> n ∈ ["send_alert_power"; "send_alert_network";
                             "send_reminder"; "send_clear"])
      /\ (forall n, is_valid_command reg n = true <-> get_command reg n <> None)
      /\ (forall n c, get_command reg n = Some c ->
                      c ∈ whitelist scripts_dir /\ name c = n)
  | inl msg =>
      exists c, c ∈ whitelist scripts_dir /\ exists_ (script_path c) = false
                /\ msg = "Script for command '" +:+ name c +:+ "' not found: "
                         +:+ script_path c
  end.
Proof.
  unfold initialize_commands.
  pose proof (register_all_cases exists_ (whitelist scripts_dir)) as H.
  destruct (register_all exists_ (whitelist scripts_dir) ∅) as [msg|reg]; [exact H|].
  destruct H as (Hall & Hnames & Hlookup).
  split; [exact Hall|]. split; [|split].
  - intros n. unfold is_valid_command.
    split.
    + intros Hv. apply bool_decide_eq_true_1 in Hv. apply Hnames in Hv. exact Hv.
    + intros Hn. apply bool_decide_eq_true_2. apply Hnames. exact Hn.
  - intros n. unfold is_valid_command, get_command. split.
    + intros Hv. apply bool_decide_eq_true_1 in Hv. destruct Hv as [x Hx]. congruence.
    + intros Hn. apply bool_decide_eq_true_2. destruct (reg !! n); [eauto | congruence].
  - exact Hlookup.
Qed.

(** *** Every path of [execute_command] *)

(** On every path the result is consistent: success, exit code 0 and the
    absence of an error message go together, and they occur only when the
    child was started and ended by itself with status 0; every failure
    carries an error message, and its exit code is -1 unless the child ended
    with a status of its own. *)
Theorem result_consistent s reg w nm args timeout rid :
  let res := fst (execute_command s reg w nm args timeout rid) in
  (success res = true <-> exit_code res = 0)
  /\ (success res = true <-> error_message res = None)
  /\ (success res = true ->
      spawn_error w = None /\ exists out err, comm w = Completed out err 0)
  /\ (exit_code res = -1 \/ exists out err, comm w = Completed out err (exit_code res)).
Proof.
  cbv zeta. unfold execute_command, validate_command_args, get_command.
  destruct (reg !! nm) as [cmd|]; [|cbn; repeat split; (discriminate || auto)].
  destruct (validate_args cmd (default [] args)); cbn [negb];
    [|cbn; repeat split; (discriminate || auto)].
  destruct (spawn_error w) as [e|]; [cbn; repeat split; (discriminate || auto)|].
  unfold supervise.
  destruct (comm w) as [out err rc| |e]; cbn [fst success exit_code error_message].
  - destruct (Z.eqb_spec rc 0) as [->|Hrc].
    + repeat split; eauto.
    + repeat split; try discriminate; try congruence; eauto.
  - repeat split; (discriminate || auto).
  - repeat split; (discriminate || auto).
Qed.

Lemma gate_supervise w nm rid t : forallb inside_gate (snd (supervise w nm rid t)) = true.
Proof.
  unfold supervise. destruct (comm w) as [out err rc| |e]; cbn [snd].
  - now destruct (rc =? 0).
  - destruct (kill_error w); [reflexivity|]. now destruct (wait_error w).
  - reflexivity.
Qed.

(** On every path the concurrency gate is left as it was found: either the
    call is rejected with an empty trace, or its trace is some log lines,
    one [Acquire], the events of the child, and one [Release] that ends the
    trace, on success, failure, timeout and spawn error alike. *)
Theorem gate_released s reg w nm args timeout rid :
  let tr := snd (execute_command s reg w nm args timeout rid) in
  tr = []
  \/ exists before body,
       tr = before ++ [Acquire] ++ body ++ [Release]
       /\ forallb is_log before = true
       /\ forallb inside_gate body = true.
Proof.
  cbv zeta. unfold execute_command, validate_command_args, get_command.
  destruct (reg !! nm) as [cmd|]; [|now left].
  destruct (validate_args cmd (default [] args)); cbn [negb]; [|now left].
  right. unfold announced.
  set (t := _validate_timeout s (requested cmd timeout)).
  set (line := Log INFO ("[" +:+ rid +:+ "] " +:+ "Executing command '" +:+ nm
                         +:+ "' with timeout " +:+ str_Z t +:+ "s")).
  set (argv := _build_command (sys_executable w) (resolve w) cmd (default [] args)).
  destruct (spawn_error w) as [e|].
  - exists ([line]
            ++ (if semaphore_locked w
                then [Log WARNING "Max concurrent executions reached, request will wait"]
                else [])),
      [Spawn argv (child_env w);
       Log EXCEPTION ("[" +:+ rid +:+ "] " +:+ "Unexpected error executing '" +:+ nm
                      +:+ "': " +:+ e)].
    cbn [snd]. destruct (semaphore_locked w); repeat split.
  - pose proof (gate_supervise w nm rid t) as G.
    destruct (supervise w nm rid t) as [res ev]. cbn [snd] in *.
    exists ([line]
            ++ (if semaphore_locked w
                then [Log WARNING "Max concurrent executions reached, request will wait"]
                else [])),
      ([Spawn argv (child_env w)] ++ ev).
    destruct (semaphore_locked w); (split; [reflexivity|]); (split; [reflexivity|]);
      cbn [app forallb inside_gate andb]; exact G.
Qed.

(** A command whose schema is empty, as every command of the whitelist, is
    only ever started as the interpreter followed by the resolved script:
    no request can add an argument to its command line. *)
Theorem no_arguments_for_empty_schema s reg w nm args timeout rid cmd :
  reg !! nm = Some cmd ->
  args_schema cmd = [] ->
  let tr := snd (execute_command s reg w nm args timeout rid) in
  spawns tr = [] \/ spawns tr = [[sys_executable w; resolve w (script_path cmd)]].
Proof.
  intros Hreg Hschema. cbv zeta.
  unfold execute_command, validate_command_args, get_command. rewrite Hreg.
  unfold validate_args. rewrite Hschema.
  destruct (default [] args) as [|p rest] eqn:Hargs; cbn [length Nat.eqb negb]; [|now left].
  right.
  destruct (ExecutorSpec.announced_quiet w nm rid
              (_validate_timeout s (requested cmd timeout))) as (_ & _ & _ & Hs).
  destruct (spawn_error w) as [e|].
  - cbn [snd]. rewrite !ExecutorSpec.spawns_app, Hs. reflexivity.
  - pose proof (ExecutorSpec.spawns_supervise w nm rid
                  (_validate_timeout s (requested cmd timeout))) as Hsup.
    destruct (supervise w nm rid _) as [res ev]. cbn [snd] in *.
    rewrite !ExecutorSpec.spawns_app, Hs, Hsup. reflexivity.
Qed.

End ExecutorMoreSpec.

Module MoreExamples.
Import Text Monitor MonitorInputs MonitorRuns MonitorConfig.
Import Executor ExecutorInputs ExecutorTraces.

Lemma load_config_fields_witness :
  load_config int_numeral (Some sample_section) = Some sample_loaded
  /\ int_numeral (chosen (Some sample_section) "failure_threshold" "4") = Some 2
  /\ chosen (Some sample_section) "router_ip" "172.168.133.1" = "172.168.133.1".
Proof.
  assert (E : load_config int_numeral (Some sample_section) = Some sample_loaded)
    by (vm_compute; reflexivity).
  destruct (MonitorConfigSpec.load_config_fields int_numeral (Some sample_section)) as [_ H].
  destruct (H sample_loaded E) as (Hr & _ & _ & _ & Ht & _).
  split; [exact E|]. split; [exact Ht | symmetry; exact Hr].
Defined.

Lemma load_config_ignores_witness :
  load_config int_numeral (Some (<["colour" := "blue"]> ∅)) = load_config int_numeral (Some ∅).
Proof.
  apply (MonitorConfigSpec.load_config_ignores int_numeral ∅ "colour" "blue").
  left. vm_compute. intros H. repeat (apply elem_of_cons in H as [H|H]; [discriminate|]).
  now apply elem_of_nil in H.
Defined.

Lemma validate_timeout_range_witness :
  1 <= _validate_timeout settings (-7) <= 120
  /\ _validate_timeout settings 45 = 45.
Proof.
  destruct (ExecutorMoreSpec.validate_timeout_range settings (-7)) as (H & _);
    [simpl; lia|].
  destruct (ExecutorMoreSpec.validate_timeout_range settings 45) as (_ & H' & _);
    [simpl; lia|].
  split; [exact H | apply H'; simpl; lia].
Defined.

Lemma validate_args_cases_witness :
  validate_args custom_command [] = true
  /\ validate_args custom_command [("verbose", VNone); ("count", VStr "3")]
     = validate_args custom_command [("count", VStr "3")]
  /\ (validate_args send_clear [("count", VInt 3)] = true <-> [("count", VInt 3)] = []).
Proof.
  destruct (ExecutorMoreSpec.validate_args_cases custom_command [("count", VStr "3")])
    as (_ & Hnone & Hextra).
  destruct (ExecutorMoreSpec.validate_args_cases send_clear [("count", VInt 3)])
    as (Hempty & _).
  split; [apply Hnone; discriminate|].
  split; [|apply Hempty; reflexivity].
  apply Hextra; [discriminate|].
  intros H. repeat (apply elem_of_cons in H as [H|H]; [discriminate|]).
  now apply elem_of_nil in H.
Defined.

Lemma no_arguments_for_empty_schema_witness :
  spawns (snd (execute_command settings whitelisted in_time "send_clear" None None "r1"))
  = [["/usr/bin/python3"; "/opt/sms-gateway/send_clear_sms.py"]].
Proof.
  destruct (ExecutorMoreSpec.no_arguments_for_empty_schema settings whitelisted in_time
              "send_clear" None None "r1" send_clear) as [H|H];
    [vm_compute; reflexivity | reflexivity | vm_compute in H; discriminate H | exact H].
Defined.

End MoreExamples.

(** ** More of the modem driver: reading and commanding *)

Module ModemReadSpec.
Import Text TextFacts Codec Modem.

Lemma append_nil_r (a : string) : a +:+ "" = a.
Proof.
  induction a as [|x a IH]; [reflexivity|].
  change (String x (a +:+ "") = String x a). now rewrite IH.
Qed.

Lemma concat_cons_empty (x : string) l :
  String.concat "" (x :: l) = x +:+ String.concat "" l.
Proof. destruct l; simpl; [now rewrite append_nil_r | reflexivity]. Qed.

Lemma append_assoc (a b c : string) : (a +:+ b) +:+ c = a +:+ (b +:+ c).
Proof.
  induction a as [|x a IH]; [reflexivity|].
  change (String x ((a +:+ b) +:+ c) = String x (a +:+ (b +:+ c))). now rewrite IH.
Qed.

(** Decoding leaves ASCII data as it is. *)
Lemma decode_ignore_ascii s : all_ascii s = true -> decode_ignore s = s.
Proof.
  induction s as [|c s IH]; [reflexivity|].
  cbn [all_ascii]. intros H. apply andb_true_iff in H as [Hc Hs].
  cbn [decode_ignore]. rewrite Hc. now rewrite IH.
Qed.

(** What the polling loop returns, from a buffer [buf] and with [n] rounds
    left. *)
Lemma read_until_loop_spec want n : forall buf l,
  exists ok txt l' consumed k,
    read_until_loop want n buf l = (inl (ok, txt), l', replicate k (Sleep poll_interval))
    /\ l = consumed ++ l'
    /\ txt = decode_ignore (buf +:+ String.concat "" consumed)
    /\ (k <= n)%nat
    /\ (ok = true -> existsb (fun w => str_in w txt) want = true)
    /\ (ok = false ->
        txt = decode_ignore buf \/ existsb (fun w => str_in w txt) want = false).
Proof.
  induction n as [|n IH]; intros buf l.
  - exists false, (decode_ignore buf), l, [], 0%nat. cbn. rewrite append_nil_r.
    repeat split; auto; discriminate.
  - cbn [read_until_loop]. rewrite ModemSpec.bind_run.
    destruct l as [|chunk l]; cbn [poll].
    + rewrite ModemSpec.emit_run.
      destruct (IH buf []) as (ok & txt & l' & consumed & k & E & Hl & Ht & Hk & Hy & Hn).
      rewrite E. cbn [fst snd app].
      exists ok, txt, l', consumed, (S k). repeat split; auto. lia.
    + destruct chunk as [|c chunk].
      * rewrite ModemSpec.emit_run.
        destruct (IH buf l) as (ok & txt & l' & consumed & k & E & Hl & Ht & Hk & Hy & Hn).
        rewrite E. cbn [fst snd app].
        exists ok, txt, l', ("" :: consumed), (S k).
        split; [reflexivity|]. split; [now rewrite Hl|].
        split; [now rewrite concat_cons_empty|]. split; [lia | auto].
      * set (buf0 := buf +:+ String c chunk).
        set (txt0 := decode_ignore buf0).
        destruct (existsb (fun w => str_in w txt0) want) eqn:Hw.
        -- exists true, txt0, l, [String c chunk], 0%nat. cbn [app fst snd replicate].
           split; [reflexivity|]. split; [reflexivity|].
           split; [now rewrite concat_cons_empty; cbn; rewrite append_nil_r|].
           split; [lia|]. split; [auto | discriminate].
        -- destruct (str_in "ERROR" txt0).
           ++ exists false, txt0, l, [String c chunk], 0%nat. cbn [app fst snd replicate].
              split; [reflexivity|]. split; [reflexivity|].
              split; [now rewrite concat_cons_empty; cbn; rewrite append_nil_r|].
              split; [lia|]. split; [discriminate | auto].
           ++ rewrite ModemSpec.emit_run.
              destruct (IH buf0 l) as (ok & txt & l' & consumed & k & E & Hl & Ht & Hk & Hy & Hn).
              rewrite E. cbn [fst snd app].
              exists ok, txt, l', (String c chunk :: consumed), (S k).
              split; [reflexivity|]. split; [now rewrite Hl|].
              split; [rewrite concat_cons_empty, Ht; subst buf0; now rewrite append_assoc|].
              split; [lia|]. split; [auto|].
              intros Hf. destruct (Hn Hf) as [Heq|Hex]; [|now right].
              right. now rewrite Heq.
Qed.

(** [read_until] always returns, and returns everything it read, decoded:
    the text is the decoding of the chunks it took from the line, joined in
    order (the chunks themselves when they are ASCII), and the rest of the
    line is left for the next reader.  It never sleeps more than
    [20 * timeout] times 50 ms.  It answers True only if one of the wanted
    tokens is in the text, and when it answers False with a non-empty text,
    none of them is. *)
Theorem read_until_accumulates want timeout l :
  exists ok txt l' consumed k,
    read_until want timeout l = (inl (ok, txt), l', replicate k (Sleep poll_interval))
    /\ l = consumed ++ l'
    /\ txt = decode_ignore (String.concat "" consumed)
    /\ (all_ascii (String.concat "" consumed) = true -> txt = String.concat "" consumed)
    /\ (k <= rounds timeout)%nat
    /\ (ok = true -> existsb (fun w => str_in w txt) want = true)
    /\ (ok = false -> txt <> "" -> existsb (fun w => str_in w txt) want = false).
Proof.
  destruct (read_until_loop_spec want (rounds timeout) "" l)
    as (ok & txt & l' & consumed & k & E & Hl & Ht & Hk & Hy & Hn).
  exists ok, txt, l', consumed, k. unfold read_until.
  split; [exact E|]. split; [exact Hl|]. split; [exact Ht|].
  split; [intros Ha; rewrite Ht; now apply decode_ignore_ascii|].
  split; [exact Hk|]. split; [exact Hy|].
  intros Hf Hne. destruct (Hn Hf) as [H|H]; [contradiction | exact H].
Qed.

Lemma str_in_empty_text w : str_in w "" = true -> w = "".
Proof. destruct w; [reflexivity | discriminate]. Qed.

(** [send_at] of a command that is ASCII always returns.  It resets the
    input, writes the command and a carriage return once, flushes, and polls
    for at most the timeout.  For a non-empty expected token, it answers
    True exactly when that token occurs in the response it returns; in
    particular a response that holds ERROR and not the token is a failure.
    A command that is not ASCII is not written: the encoding error ends the
    run after the input was reset, and nothing is read from the line. *)
Theorem send_at_succeeds_iff cmd expect timeout l :
  expect <> "" ->
  (all_ascii cmd = true ->
   exists ok resp l' k,
     send_at cmd expect timeout l
     = (inl (ok, resp), l',
        [Log DEBUG (">>> " +:+ cmd); ResetInput; Write (cmd +:+ CR); Flush]
        ++ replicate k (Sleep poll_interval)
        ++ [Log DEBUG ("<<< " +:+ join " " (split_ws resp ""))])
     /\ (k <= rounds timeout)%nat
     /\ (ok = true <-> str_in expect resp = true))
  /\ (all_ascii cmd = false ->
      send_at cmd expect timeout l = (inr 1, l, [Log DEBUG (">>> " +:+ cmd); ResetInput])).
Proof.
  intros Hexp. unfold send_at. rewrite ModemSpec.all_ascii_command. split; intros Hcmd.
  - rewrite Hcmd. rewrite !ModemSpec.emit_run, ModemSpec.bind_run.
    destruct (read_until_loop_spec [expect; "ERROR"] (rounds timeout) "" l)
      as (ok & txt & l' & consumed & k & E & _ & _ & Hk & Hy & Hn).
    unfold read_until. rewrite E. rewrite ModemSpec.emit_run, ModemSpec.ret_run. cbn [fst snd].
    exists (ok && str_in expect txt), txt, l', k.
    split; [reflexivity|]. split; [exact Hk|].
    rewrite andb_true_iff. split; [tauto|].
    intros Hin. split; [|exact Hin].
    destruct ok; [reflexivity|].
    destruct (Hn eq_refl) as [Hempty|Hnone].
    + subst txt. apply str_in_empty_text in Hin. contradiction.
    + cbn [existsb] in Hnone. rewrite Hin in Hnone. discriminate.
  - rewrite Hcmd. rewrite !ModemSpec.emit_run, ModemSpec.bind_run. reflexivity.
Qed.

End ModemReadSpec.

(** ** The message reference *)

Module ModemRefSpec.
Import Text TextFacts Modem ModemMore.









End ModemRefSpec.

(** ** The recipients *)

Module RecipientsSpec.
Import Text Modem ModemMore.

Lemma lstrip_head s :
  lstrip s = "" \/ exists c rest, lstrip s = String c rest /\ isspace c = false.
Proof.
  induction s as [|c s IH]; [now left|]. cbn [lstrip].
  destruct (isspace c) eqn:Hc; [exact IH | right; eauto].
Qed.

Lemma rstrip_idem s : rstrip (rstrip s) = rstrip s.
Proof.
  induction s as [|c s IH]; [reflexivity|]. cbn [rstrip].
  destruct (rstrip s) as [|d r] eqn:E.
  - destruct (isspace c) eqn:Hc; [reflexivity|]. cbn [rstrip]. now rewrite Hc.
  - change (rstrip (String c (String d r))) with
      (match rstrip (String d r) with
       | "" => if isspace c then "" else String c ""
       | r' => String c r'
       end).
    now rewrite IH.
Qed.

Lemma rstrip_keeps_head c rest :
  isspace c = false -> exists rest', rstrip (String c rest) = String c rest'.
Proof.
  intros Hc. cbn [rstrip]. destruct (rstrip rest); [rewrite Hc|]; eauto.
Qed.

(** [strip] is idempotent: a stripped text has no white space at either end. *)
Lemma strip_idem s : strip (strip s) = strip s.
Proof.
  unfold strip. destruct (lstrip_head s) as [->|(c & rest & -> & Hc)]; [reflexivity|].
  destruct (rstrip_keeps_head c rest Hc) as [rest' E].
  assert (L : lstrip (rstrip (String c rest)) = rstrip (String c rest)).
  { rewrite E. cbn [lstrip]. now rewrite Hc. }
  rewrite L. apply rstrip_idem.
Qed.

Lemma every_lstrip p s : every p s = true -> every p (lstrip s) = true.
Proof.
  induction s as [|c s IH]; [auto|]. intros H. cbn [lstrip].
  destruct (isspace c); [|exact H].
  cbn [every] in H. apply andb_true_iff in H as [_ H]. auto.
Qed.

Lemma every_rstrip p s : every p s = true -> every p (rstrip s) = true.
Proof.
  induction s as [|c s IH]; [auto|]. intros H.
  cbn [every] in H. apply andb_true_iff in H as [Hc H]. specialize (IH H).
  cbn [rstrip]. destruct (rstrip s) as [|d r].
  - destruct (isspace c); [reflexivity|]. cbn [every]. now rewrite Hc.
  - cbn [every] in *. now rewrite Hc, IH.
Qed.

Lemma every_snoc p s c : every p s = true -> p c = true -> every p (s +:+ String c "") = true.
Proof.
  intros Hs Hc. induction s as [|d s IH].
  - change (every p (String c "") = true). cbn [every]. now rewrite Hc.
  - cbn [every] in Hs. apply andb_true_iff in Hs as [Hd Hs].
    change (every p (String d (s +:+ String c "")) = true). cbn [every].
    now rewrite Hd, IH.
Qed.

(** No piece of a split holds a separator. *)
Lemma split_at_pieces sep s : forall cur,
  every (fun c => negb (sep c)) cur = true ->
  Forall (fun piece => every (fun c => negb (sep c)) piece = true) (split_at sep s cur).
Proof.
  induction s as [|c s IH]; intros cur Hcur; cbn [split_at].
  - now constructor.
  - destruct (sep c) eqn:Hc.
    + constructor; [exact Hcur | now apply IH].
    + apply IH. apply every_snoc; [exact Hcur | now rewrite Hc].
Qed.

Lemma nonempty_true s : nonempty s = true <-> s <> "".
Proof. destruct s; cbn; split; (congruence || discriminate || auto). Qed.

Lemma block_numbers_clean pn :
  Forall (fun r => r <> "" /\ strip r = r
                   /\ every (fun c => negb (is_separator c)) r = true)
         (block_numbers pn).
Proof.
  unfold block_numbers. destruct (strip (default "" pn)) as [|c0 block]; [constructor|].
  apply Forall_forall. intros r Hr.
  apply list_elem_of_In, List.filter_In in Hr as [Hin Hne].
  apply List.in_map_iff in Hin as (piece & <- & Hpiece).
  split; [now apply nonempty_true|]. split; [apply strip_idem|].
  pose proof (split_at_pieces is_separator (String c0 block) "" eq_refl) as Hall.
  rewrite Forall_forall in Hall. apply list_elem_of_In in Hpiece.
  unfold strip. apply every_rstrip, every_lstrip, Hall, Hpiece.
Qed.

(** [parse_recipients] returns only non-empty numbers without white space
    at either end.  The numbers of [phone_numbers], which hold no comma and
    no newline, take precedence: when there is at least one, [phone_number]
    is not looked at.  Otherwise the result is the stripped [phone_number]
    alone, taken whole, or nothing when that is empty; so the list is empty
    exactly when [phone_numbers] yields no number and the stripped
    [phone_number] is empty. *)
Theorem parse_recipients_clean pn p :
  Forall (fun r => r <> "" /\ strip r = r) (parse_recipients pn p)
  /\ Forall (fun r => every (fun c => negb (is_separator c)) r = true) (block_numbers pn)
  /\ (block_numbers pn <> [] -> forall p', parse_recipients pn p' = block_numbers pn)
  /\ (parse_recipients pn p = []
      <-> block_numbers pn = [] /\ strip (default "" p) = "").
Proof.
  pose proof (block_numbers_clean pn) as Hclean.
  split; [|split; [|split]].
  - unfold parse_recipients. destruct (block_numbers pn) as [|n ns] eqn:Hb.
    + destruct (strip (default "" p)) as [|c s] eqn:Hs; [constructor|].
      repeat constructor; [discriminate|]. rewrite <- Hs. apply strip_idem.
    + rewrite Forall_forall in Hclean. rewrite Forall_forall. intros r Hr.
      destruct (Hclean r Hr) as (H1 & H2 & _). auto.
  - rewrite Forall_forall in Hclean. rewrite Forall_forall. intros r Hr.
    destruct (Hclean r Hr) as (_ & _ & H). exact H.
  - intros Hne p'. unfold parse_recipients.
    destruct (block_numbers pn); [congruence | reflexivity].
  - unfold parse_recipients. destruct (block_numbers pn) as [|n ns].
    + destruct (strip (default "" p)); split; try discriminate; auto.
      intros [_ H]. discriminate.
    + split; [discriminate | intros [H _]; discriminate].
Qed.

End RecipientsSpec.

(** ** What a run of the script touches *)

Module ModemSessionSpec.
Import Text Codec Modem ModemMore.

Section Events.

(** A class [p] of events that holds the events no command decides:
    logging, resetting, flushing, sleeping and printing. *)
Variable p : event -> bool.
Hypothesis p_log : forall lvl msg, p (Log lvl msg) = true.
Hypothesis p_reset : p ResetInput = true.
Hypothesis p_flush : p Flush = true.
Hypothesis p_sleep : forall secs, p (Sleep secs) = true.
Hypothesis p_print : forall msg, p (Print msg) = true.

Lemma always_ret {A} (a : A) : always p (mret a).
Proof. intros l. reflexivity. Qed.

Lemma always_exit {A} code : always p (sys_exit code : M A).
Proof. intros l. reflexivity. Qed.

Lemma always_uncaught {A} e : always p (uncaught e : M A).
Proof. intros l. reflexivity. Qed.

Lemma always_emit e : p e = true -> always p (emit e).
Proof. intros H l. cbn. now rewrite H. Qed.

Lemma always_bind {A B} (m : M A) (f : A -> M B) :
  always p m -> (forall a, always p (f a)) -> always p (m ≫= f).
Proof.
  intros Hm Hf l. rewrite ModemSpec.bind_run. specialize (Hm l).
  destruct (m l) as [[r l1] ev1]. cbn [snd] in Hm. destruct r as [a|code]; [|exact Hm].
  specialize (Hf a l1). destruct (f a l1) as [[r2 l2] ev2]. cbn [snd] in *.
  rewrite forallb_app. now rewrite Hm, Hf.
Qed.

Lemma always_poll : always p poll.
Proof. intros l. now destruct l. Qed.

Lemma always_read_until_loop want n : forall buf, always p (read_until_loop want n buf).
Proof.
  induction n as [|n IH]; intros buf; cbn [read_until_loop]; [apply always_ret|].
  apply always_bind; [apply always_poll|]. intros chunk.
  assert (Again : forall b, always p (emit (Sleep poll_interval);; read_until_loop want n b)).
  { intros b. apply always_bind; [apply always_emit, p_sleep | auto]. }
  destruct chunk as [|c chunk]; [apply Again|].
  destruct (existsb _ want); [apply always_ret|].
  destruct (str_in "ERROR" _); [apply always_ret | apply Again].
Qed.

Lemma always_send_at cmd expect timeout :
  p (Write (cmd +:+ CR)) = true -> always p (send_at cmd expect timeout).
Proof.
  intros Hw. unfold send_at.
  apply always_bind; [apply always_emit, p_log | intros _].
  apply always_bind; [apply always_emit, p_reset | intros _].
  apply always_bind;
    [destruct (all_ascii _); [apply always_emit, Hw | apply always_uncaught] | intros _].
  apply always_bind; [apply always_emit, p_flush | intros _].
  apply always_bind; [apply always_read_until_loop | intros [ok resp]].
  apply always_bind; [apply always_emit, p_log | intros _].
  apply always_ret.
Qed.

Lemma always_handshake_loop n : forall resp,
  p (Write ("AT" +:+ CR)) = true -> always p (handshake_loop n resp).
Proof.
  induction n as [|n IH]; intros resp Hw; cbn [handshake_loop].
  - apply always_bind; [apply always_emit, p_log | intros _].
    apply always_bind; [apply always_emit, p_log | intros _]. apply always_exit.
  - apply always_bind; [now apply always_send_at | intros [ok r]].
    destruct ok; [apply always_ret|].
    apply always_bind; [apply always_emit, p_sleep | intros _]. now apply IH.
Qed.

Lemma always_sim_ready_loop n :
  p (Write ("AT+CPIN?" +:+ CR)) = true -> always p (sim_ready_loop n).
Proof.
  intros Hw. induction n as [|n IH]; cbn [sim_ready_loop].
  - apply always_bind; [apply always_emit, p_log | intros _]. apply always_exit.
  - apply always_bind; [apply always_emit, p_sleep | intros _].
    apply always_bind; [now apply always_send_at | intros [ok r]].
    destruct (str_in "READY" r); [apply always_ret | exact IH].
Qed.

(** [handshake_and_prepare] stays within [p] when its fixed commands do
    and, for a configured PIN, the PIN command does. *)
Lemma always_handshake_and_prepare pin :
  Forall (fun cmd => p (Write (cmd +:+ CR)) = true) setup_commands ->
  (pin <> "" -> p (Write (("AT+CPIN=" +:+ QUOTE +:+ pin +:+ QUOTE) +:+ CR)) = true) ->
  always p (handshake_and_prepare pin).
Proof.
  intros Hfixed Hpin. unfold setup_commands in Hfixed.
  repeat match goal with
         | H : Forall _ (_ :: _) |- _ => inversion H; clear H; subst
         end.
  unfold handshake_and_prepare.
  apply always_bind; [now apply always_handshake_loop | intros _].
  apply always_bind; [now apply always_send_at | intros _].
  apply always_bind; [now apply always_send_at | intros _].
  apply always_bind; [now apply always_send_at | intros [ok resp]].
  apply always_bind.
  { destruct (str_in "SIM PIN" resp); [|apply always_ret].
    destruct pin as [|c pin].
    - apply always_bind; [apply always_emit, p_log | intros _]. apply always_exit.
    - apply always_bind; [apply always_send_at, Hpin; discriminate | intros [ok' r]].
      destruct ok'; cbn [negb]; [now apply always_sim_ready_loop|].
      apply always_bind; [apply always_emit, p_log | intros _]. apply always_exit. }
  intros _.
  apply always_bind; [now apply always_send_at | intros _].
  apply always_bind; [now apply always_send_at | intros _].
  apply always_bind; [now apply always_send_at | intros [ok' r]].
  apply always_bind.
  { destruct ok'; cbn [negb]; [apply always_ret|].
    apply always_bind; [apply always_emit, p_log | intros _]. apply always_exit. }
  intros _.
  apply always_bind; [now apply always_send_at | intros _].
  apply always_bind; [now apply always_send_at | intros _].
  apply always_ret.
Qed.

(** The batch and the report stay within [p] when every write does. *)
Lemma always_session cfg :
  (forall data, p (Write data) = true) -> always p (session cfg).
Proof.
  intros Hw.
  assert (Hsend : forall number msg, always p (send_sms_to_number number msg)).
  { intros number msg. unfold send_sms_to_number.
    apply always_bind; [apply always_emit, p_log | intros _].
    apply always_bind; [apply always_send_at, Hw | intros [ok resp]].
    destruct ok; cbn [negb].
    - apply always_bind; [apply always_emit, Hw | intros _].
      apply always_bind; [apply always_emit, Hw | intros _].
      apply always_bind; [apply always_emit, p_flush | intros _].
      apply always_bind; [apply always_read_until_loop | intros [ok' resp']].
      destruct (str_in "+CMGS" resp' && str_in "OK" resp');
        (apply always_bind; [apply always_emit, p_log | intros _]; apply always_ret).
    - apply always_bind; [apply always_emit, p_log | intros _]. apply always_ret. }
  assert (Hall : forall total d msg rest i successes,
            always p (send_all total d msg i rest successes)).
  { intros total d msg rest. induction rest as [|number rest IH]; intros i successes;
      cbn [send_all]; [apply always_ret|].
    apply always_bind; [apply Hsend | intros [ok resp]].
    apply always_bind; [|intros _; apply IH].
    destruct (i <? total)%nat; [apply always_emit, p_sleep | apply always_ret]. }
  assert (Hreport : forall successes total, always p (report successes total)).
  { intros successes total. unfold report.
    destruct (successes =? Z.of_nat total); [|destruct (successes =? 0)];
      (apply always_bind; [apply always_emit, p_log | intros _];
       apply always_bind; [apply always_emit, p_print | intros _]; apply always_exit). }
  unfold session.
  apply always_bind.
  { apply always_handshake_and_prepare; [|intros _; apply Hw].
    apply Forall_forall. intros cmd _. apply Hw. }
  intros _. apply always_bind; [apply Hall | intros successes; apply Hreport].
Qed.

End Events.

(** [main] leaves the serial port alone when the configuration is
    incomplete or the port does not open: its trace is log lines only.
    Otherwise the trace is the opening of the configured port, events that
    neither open nor close a port, and one closing that ends the trace,
    however the session ends (handshake failure, PIN failure, partial or
    full delivery). *)
Theorem port_opened_once_closed_last cfg w :
  let tr := snd (main cfg w) in
  (recipients cfg = [] \/ reminder_message cfg = "" \/ open_error w <> None ->
   forallb off_the_line tr = true)
  /\ (recipients cfg <> [] -> reminder_message cfg <> "" -> open_error w = None ->
      exists body,
        tr = Open (port cfg) (baudrate cfg) :: body ++ [Close]
        /\ forallb inside_session body = true).
Proof.
  cbv zeta. unfold main. split.
  - intros H. destruct (recipients cfg) as [|r rs]; [reflexivity|].
    destruct (reminder_message cfg) as [|c msg]; [reflexivity|].
    destruct (open_error w) as [e|]; [reflexivity|].
    destruct H as [H|[H|H]]; congruence.
  - intros Hr Hm Ho. destruct (recipients cfg) as [|r rs] eqn:Hrec; [congruence|].
    destruct (reminder_message cfg) as [|c msg] eqn:Hmsg; [congruence|].
    rewrite Ho. cbn [open_serial]. rewrite ModemSpec.emit_run. cbn [emit fst snd].
    pose proof (always_session inside_session
                  (fun _ _ => eq_refl) eq_refl eq_refl (fun _ => eq_refl) (fun _ => eq_refl)
                  cfg (fun _ => eq_refl) (inbound w)) as Hs.
    destruct (session cfg (inbound w)) as [[res l'] ev]. cbn [snd] in *.
    exists (Log DEBUG ("Opened serial port " +:+ port cfg +:+ " @ " +:+ str_Z (baudrate cfg))
            :: ev).
    split; [reflexivity|]. cbn [forallb inside_session andb]. exact Hs.
Qed.

(** With no PIN configured, [handshake_and_prepare] never writes a PIN
    command to the modem, whatever the modem answers. *)
Theorem no_pin_command_without_pin l :
  forallb not_pin_command (snd (handshake_and_prepare "" l)) = true.
Proof.
  apply (always_handshake_and_prepare not_pin_command
           (fun _ _ => eq_refl) eq_refl eq_refl (fun _ => eq_refl)).
  - repeat constructor.
  - intros H. now destruct H.
Qed.

End ModemSessionSpec.

Module ModemMoreExamples.
Import Text Modem ModemInputs ModemMore.

Lemma send_at_succeeds_iff_witness :
  (exists ok resp l' k,
     send_at "AT" "OK" 2 ["+CME "; "ERROR: 10"; OK]
     = (inl (ok, resp), l',
        [Log DEBUG (">>> " +:+ "AT"); ResetInput; Write ("AT" +:+ CR); Flush]
        ++ replicate k (Sleep poll_interval)
        ++ [Log DEBUG ("<<< " +:+ join " " (split_ws resp ""))])
     /\ (k <= rounds 2)%nat
     /\ (ok = true <-> str_in "OK" resp = true))
  /\ send_at ("AT+CMGS=" +:+ QUOTE +:+ HYPHENATED +:+ QUOTE) ">" 5 [PROMPT]
     = (inr 1, [PROMPT],
        [Log DEBUG (">>> " +:+ ("AT+CMGS=" +:+ QUOTE +:+ HYPHENATED +:+ QUOTE)); ResetInput]).
Proof.
  split.
  - apply (ModemReadSpec.send_at_succeeds_iff "AT" "OK" 2 ["+CME "; "ERROR: 10"; OK]);
      [discriminate | reflexivity].
  - apply (ModemReadSpec.send_at_succeeds_iff
             ("AT+CMGS=" +:+ QUOTE +:+ HYPHENATED +:+ QUOTE) ">" 5 [PROMPT]);
      [discriminate | reflexivity].
Defined.


Lemma parse_recipients_clean_witness :
  parse_recipients (Some (" +15550001, +15550002" +:+ LF +:+ "+15550003 ,, "))
                   (Some "+19990000")
  = ["+15550001"; "+15550002"; "+15550003"]
  /\ parse_recipients (Some (" , " +:+ LF)) (Some " +19990000,+19990001 ")
     = ["+19990000,+19990001"].
Proof.
  destruct (RecipientsSpec.parse_recipients_clean
              (Some (" +15550001, +15550002" +:+ LF +:+ "+15550003 ,, ")) None)
    as (_ & _ & Hfirst & _).
  split; [|reflexivity].
  rewrite Hfirst; [reflexivity | discriminate].
Defined.

Lemma port_opened_once_closed_last_witness :
  (exists body,
     snd (main three dead) = Open "/dev/ttyUSB2" 115200 :: body ++ [Close]
     /\ forallb inside_session body = true)
  /\ forallb off_the_line (snd (main three {| open_error := Some "busy"; inbound := [] |}))
     = true.
Proof.
  destruct (ModemSessionSpec.port_opened_once_closed_last three dead) as [_ Hopen].
  destruct (ModemSessionSpec.port_opened_once_closed_last three
              {| open_error := Some "busy"; inbound := [] |}) as [Hshut _].
  split; [apply Hopen; (discriminate || reflexivity)|].
  apply Hshut. right. right. discriminate.
Defined.

End ModemMoreExamples.

(** ** The address filter and the API key *)

Module GatewaySpec.
Import Text Executor ModemMore Gateway.

Lemma member_true x l : member x l = true <-> x ∈ l.
Proof.
  unfold member. rewrite existsb_exists. split.
  - intros (y & Hin & Heq). apply String.eqb_eq in Heq as ->. now apply list_elem_of_In.
  - intros H. exists x. split; [now apply list_elem_of_In | apply String.eqb_refl].
Qed.

Lemma split_at_nonempty sep s cur : split_at sep s cur <> [].
Proof. revert cur. induction s as [|c s IH]; intros cur; cbn [split_at]; [discriminate|].
  destruct (sep c); [discriminate | apply IH]. Qed.

(** [get_allowed_ips] is empty exactly when the setting is unset or the
    empty text; any other setting, even blank, gives at least one entry
    (so the address filter of the middleware is on).  Every entry is
    stripped of surrounding white space and holds no comma. *)
Theorem allowed_ips_entries sec :
  (get_allowed_ips sec = [] <-> ALLOWED_IPS sec = None \/ ALLOWED_IPS sec = Some "")
  /\ Forall (fun ip => strip ip = ip /\ every (fun c => negb (is_comma c)) ip = true)
            (get_allowed_ips sec).
Proof.
  unfold get_allowed_ips. destruct (ALLOWED_IPS sec) as [[|c s]|].
  - split; [split; auto | constructor].
  - split.
    + split; [|intros [H|H]; discriminate].
      intros H. apply List.map_eq_nil in H. now apply split_at_nonempty in H.
    + rewrite Forall_forall. intros ip Hip.
      apply list_elem_of_In, List.in_map_iff in Hip as (piece & <- & Hpiece).
      split; [apply RecipientsSpec.strip_idem|].
      pose proof (RecipientsSpec.split_at_pieces is_comma (String c s) "" eq_refl) as Hall.
      rewrite Forall_forall in Hall. apply list_elem_of_In in Hpiece.
      unfold strip. apply RecipientsSpec.every_rstrip, RecipientsSpec.every_lstrip, Hall, Hpiece.
  - split; [split; auto | constructor].
Qed.

(** A request goes on to the handler exactly when its path is one of the
    four open paths, or else when the address filter is off or holds the
    client's address, and the key header is present, not empty, and equal
    to the configured key.  A client outside an active filter is refused
    with 403 whatever key it sends; every other refusal is a 401. *)
Theorem middleware_forwards_iff sec req rid :
  let v := fst (api_key_middleware sec req rid) in
  (v = Forwarded
   <-> path req ∈ UNAUTHENTICATED_PATHS
       \/ ((get_allowed_ips sec = [] \/ client_host req ∈ get_allowed_ips sec)
           /\ api_key_header req = Some (API_KEY sec) /\ API_KEY sec <> ""))
  /\ (path req ∉ UNAUTHENTICATED_PATHS -> get_allowed_ips sec <> [] ->
      client_host req ∉ get_allowed_ips sec ->
      v = Refused 403 "FORBIDDEN" "Access denied: IP not whitelisted")
  /\ (forall status code message, v = Refused status code message ->
        status = 403 \/ status = 401).
Proof.
  cbv zeta. unfold api_key_middleware.
  destruct (member (path req) UNAUTHENTICATED_PATHS) eqn:Hpath.
  { apply member_true in Hpath. cbn [fst].
    split; [split; auto|]. split; [contradiction | discriminate]. }
  assert (Hnp : path req ∉ UNAUTHENTICATED_PATHS).
  { intros H. apply member_true in H. congruence. }
  destruct (get_allowed_ips sec) as [|ip ips] eqn:Hips.
  - destruct (api_key_header req) as [[|c key]|] eqn:Hkey; cbn [fst].
    + split; [|split; [congruence | intros ? ? ? [= <- _ _]; auto]].
      split; [discriminate|]. intros [H|(_ & [= <-] & H)]; contradiction.
    + destruct (String.eqb_spec (String c key) (API_KEY sec)) as [Heq|Hne]; cbn [negb fst].
      * split; [|split; [congruence | discriminate]].
        split; [|reflexivity]. intros _. right. rewrite <- Heq.
        split; [now left|]. split; [reflexivity | discriminate].
      * split; [|split; [congruence | intros ? ? ? [= <- _ _]; auto]].
        split; [discriminate|]. intros [H|(_ & [= H] & _)]; [contradiction | congruence].
    + split; [|split; [congruence | intros ? ? ? [= <- _ _]; auto]].
      split; [discriminate|]. intros [H|(_ & H & _)]; [contradiction | discriminate].
  - destruct (member (client_host req) (ip :: ips)) eqn:Hin; cbn [negb].
    + apply member_true in Hin.
      destruct (api_key_header req) as [[|c key]|] eqn:Hkey; cbn [fst].
      * split; [|split; [contradiction | intros ? ? ? [= <- _ _]; auto]].
        split; [discriminate|]. intros [H|(_ & [= <-] & H)]; contradiction.
      * destruct (String.eqb_spec (String c key) (API_KEY sec)) as [Heq|Hne]; cbn [negb fst].
        -- split; [|split; [contradiction | discriminate]].
           split; [|reflexivity]. intros _. right. rewrite <- Heq.
           split; [now right|]. split; [reflexivity | discriminate].
        -- split; [|split; [contradiction | intros ? ? ? [= <- _ _]; auto]].
           split; [discriminate|]. intros [H|(_ & [= H] & _)]; [contradiction | congruence].
      * split; [|split; [contradiction | intros ? ? ? [= <- _ _]; auto]].
        split; [discriminate|]. intros [H|(_ & H & _)]; [contradiction | discriminate].
    + assert (Hout : client_host req ∉ ip :: ips).
      { intros H. apply member_true in H. congruence. }
      cbn [fst]. split; [|split; [reflexivity | intros ? ? ? [= <- _ _]; auto]].
      split; [discriminate|].
      intros [H|([H|H] & _)]; [contradiction | discriminate | contradiction].
Qed.

End GatewaySpec.

(** ** The route to the executor *)

Module RouteSpec.
Import Text TextFacts Executor ExecutorInputs ExecutorTraces ModemMore Gateway Numerals.

Lemma uint_chars u : every sign_or_digit (NilEmpty.string_of_uint u) = true.
Proof. induction u; cbn [NilEmpty.string_of_uint every]; try rewrite IHu; reflexivity. Qed.

(** [str(n)] is made of digits and at most a sign. *)
Lemma str_Z_chars n : every sign_or_digit (str_Z n) = true.
Proof.
  unfold str_Z, NilZero.string_of_int, NilZero.string_of_uint.
  destruct (Z.to_int n) as [u|u]; destruct u; try reflexivity;
    try apply (uint_chars (_ _));
    cbn [every]; rewrite (uint_chars (_ _)); reflexivity.
Qed.

Lemma lower_numeral s : every sign_or_digit s = true -> lower s = s.
Proof.
  induction s as [|c s IH]; [reflexivity|]. cbn [every lower]. intros H.
  apply andb_true_iff in H as [Hc Hs]. rewrite (IH Hs). f_equal.
  unfold lower_char. unfold sign_or_digit, isdigit in Hc.
  destruct ((65 <=? Z.of_nat (nat_of_ascii c)) && (Z.of_nat (nat_of_ascii c) <=? 90)) eqn:Hup;
    [|reflexivity].
  exfalso. apply orb_true_iff in Hc as [Hd|Hm].
  - apply andb_true_iff in Hup as [H1 H2]. apply Z.leb_le in H1, H2.
    apply andb_true_iff in Hd as [_ H3]. apply Z.leb_le in H3. lia.
  - apply Ascii.eqb_eq in Hm. subst c. vm_compute in Hup. discriminate.
Qed.

Lemma str_in_absent w0 w' s :
  every (fun c => negb (Ascii.eqb c w0)) s = true -> str_in (String w0 w') s = false.
Proof.
  induction s as [|c s IH]; [reflexivity|]. cbn [every]. intros H.
  apply andb_true_iff in H as [Hc Hs]. cbn [str_in String.prefix].
  rewrite (IH Hs).
  destruct (ascii_dec w0 c) as [->|Hne]; [|reflexivity].
  now rewrite Ascii.eqb_refl in Hc.
Qed.

Lemma every_weaken (p q : ascii -> bool) s :
  (forall c, p c = true -> q c = true) -> every p s = true -> every q s = true.
Proof.
  intros Hpq. induction s as [|c s IH]; [auto|]. cbn [every]. intros H.
  apply andb_true_iff in H as [Hc Hs]. now rewrite (Hpq c Hc), IH.
Qed.

Lemma numeral_without (w0 : ascii) s :
  sign_or_digit w0 = false -> every sign_or_digit s = true ->
  every (fun c => negb (Ascii.eqb c w0)) s = true.
Proof.
  intros Hw. apply every_weaken. intros c Hc.
  destruct (Ascii.eqb_spec c w0) as [->|]; [congruence | reflexivity].
Qed.

Lemma str_in_cons_false w c rest :
  String.prefix w (String c rest) = false -> str_in w rest = false ->
  str_in w (String c rest) = false.
Proof. intros H1 H2. cbn [str_in]. now rewrite H1, H2. Qed.

(** The message of a child that ended with a non-zero status is neither a
    timeout nor a missing command for the route. *)
Lemma classify_failed_message rc :
  classify ("Command failed with exit code " +:+ str_Z rc) = EXECUTION_FAILED.
Proof.
  unfold classify. rewrite lower_app, (lower_numeral _ (str_Z_chars rc)).
  pose proof (numeral_without "t" _ eq_refl (str_Z_chars rc)) as Ht.
  pose proof (numeral_without "n" _ eq_refl (str_Z_chars rc)) as Hn.
  apply (str_in_absent "t" "imeout") in Ht. apply (str_in_absent "n" "ot found") in Hn.
  revert Ht Hn. generalize (str_Z rc). intros d Ht Hn.
  assert (H1 : str_in "timeout" (lower "Command failed with exit code " +:+ d) = false).
  { repeat (apply str_in_cons_false; [reflexivity|]). exact Ht. }
  assert (H2 : str_in "not found" (lower "Command failed with exit code " +:+ d) = false).
  { repeat (apply str_in_cons_false; [reflexivity|]). exact Hn. }
  now rewrite H1, H2.
Qed.

Lemma valid_registered (reg : registry) nm cmd :
  reg !! nm = Some cmd -> is_valid_command reg nm = true.
Proof. intros H. apply bool_decide_eq_true_2. rewrite H. eauto. Qed.

(** The route, once its two checks passed on a request whose command
    starts. *)
Lemma route_resolved repr_args s reg w req rid cmd :
  reg !! command req = Some cmd ->
  mode req = "sync" ->
  validate_args cmd (args req) = true ->
  spawn_error w = None ->
  exists asked,
    execute_route repr_args s reg w req rid
    = (let result :=
         fst (supervise w (command req) rid
                (_validate_timeout s (requested cmd (timeout req)))) in
       match error_message result with
       | Some (String c rest) =>
           ExecutionError (http_status_of (classify (String c rest))) (classify (String c rest))
             rid (command req) (String c rest)
             (match stderr result with
              | EmptyString => None
              | _ => Some (exit_code result, stdout result, stderr result)
              end)
             (duration_ms result) (started_at result) (completed_at result)
       | _ =>
           Done rid (command req) (stdout result) (stderr result) (exit_code result)
             (duration_ms result) (started_at result) (completed_at result)
       end,
       Log INFO asked
       :: snd (execute_command s reg w (command req) (Some (args req)) (timeout req) rid)).
Proof.
  intros Hreg Hmode Hargs Hspawn. unfold execute_route.
  rewrite (valid_registered _ _ _ Hreg), Hmode. cbn [negb String.eqb].
  change (String.eqb "sync" "sync") with true. cbn [negb].
  rewrite (ExecutorSpec.execute_resolved s reg w (command req) (Some (args req))
             (timeout req) rid cmd Hreg Hargs Hspawn).
  eexists. reflexivity.
Qed.

(** For a registered command in sync mode whose arguments pass and whose
    child starts, the answer follows the way the child ends: 200 with the
    stripped output for status 0; 500 EXECUTION_FAILED for another status,
    with details exactly when there is standard error text; 408
    EXECUTION_TIMEOUT without details for a timeout; and for an exception
    while waiting, the status the text of the exception is classified
    under. *)
Theorem route_status_table repr_args s reg w req rid cmd :
  reg !! command req = Some cmd ->
  mode req = "sync" ->
  validate_args cmd (args req) = true ->
  spawn_error w = None ->
  let resp := fst (execute_route repr_args s reg w req rid) in
  let t := _validate_timeout s (requested cmd (timeout req)) in
  let d := now_completed w - now_started w in
  match comm w with
  | Completed out err rc =>
      if rc =? 0
      then resp = Done rid (command req) (strip out) (strip err) rc
                    d (now_started w) (now_completed w)
      else resp = ExecutionError 500 EXECUTION_FAILED rid (command req)
                    ("Command failed with exit code " +:+ str_Z rc)
                    (match strip err with
                     | EmptyString => None
                     | _ => Some (rc, strip out, strip err)
                     end)
                    d (now_started w) (now_completed w)
  | TimedOut =>
      resp = ExecutionError 408 EXECUTION_TIMEOUT rid (command req)
               ("Command exceeded timeout of " +:+ str_Z t +:+ "s") None
               d (now_started w) (now_completed w)
  | CommRaises e =>
      resp = ExecutionError (http_status_of (classify ("Execution error: " +:+ e)))
               (classify ("Execution error: " +:+ e)) rid (command req)
               ("Execution error: " +:+ e)
               (match e with
                | EmptyString => None
                | _ => Some (-1, "", e)
                end)
               d (now_started w) (now_completed w)
  end.
Proof.
  intros Hreg Hmode Hargs Hspawn. cbv zeta.
  destruct (route_resolved repr_args s reg w req rid cmd Hreg Hmode Hargs Hspawn)
    as [asked ->]. cbn [fst]. unfold supervise.
  destruct (comm w) as [out err rc| |e]; cbn [fst error_message stderr stdout exit_code
                                               duration_ms started_at completed_at success].
  - destruct (rc =? 0) eqn:Hrc; [reflexivity|].
    pose proof (classify_failed_message rc) as Hc.
    remember ("Command failed with exit code " +:+ str_Z rc) as msg eqn:E.
    destruct msg as [|c rest]; [discriminate E|]. rewrite Hc. reflexivity.
  - pose proof (ExecutorSpec.classify_timeout_message
                  (_validate_timeout s (requested cmd (timeout req)))) as Hc.
    remember ("Command exceeded timeout of "
              +:+ str_Z (_validate_timeout s (requested cmd (timeout req))) +:+ "s")
      as msg eqn:E.
    destruct msg as [|c rest]; [discriminate E|]. rewrite Hc. reflexivity.
  - remember ("Execution error: " +:+ e) as msg eqn:E.
    destruct msg as [|c rest]; [discriminate E | reflexivity].
Qed.

(** When the request gives a timeout within the bounds of the request model
    and [MAX_TIMEOUT] is at least 120, the wait on the child is issued with
    exactly that timeout: through the route, a given timeout is neither
    cut down nor replaced by the default. *)
Theorem route_timeout_passthrough repr_args s reg w req rid cmd t :
  reg !! command req = Some cmd ->
  mode req = "sync" ->
  validate_args cmd (args req) = true ->
  spawn_error w = None ->
  timeout req = Some t ->
  timeout_in_bounds req = true ->
  120 <= MAX_TIMEOUT s ->
  waits (snd (execute_route repr_args s reg w req rid)) = [t].
Proof.
  intros Hreg Hmode Hargs Hspawn Ht Hb Hmax.
  destruct (route_resolved repr_args s reg w req rid cmd Hreg Hmode Hargs Hspawn)
    as [asked ->]. cbn [snd].
  rewrite (ExecutorSpec.execute_resolved s reg w (command req) (Some (args req))
             (timeout req) rid cmd Hreg Hargs Hspawn). cbn [snd].
  change (waits (Log INFO asked :: ?tr)) with (waits tr).
  rewrite !ExecutorSpec.waits_app, ExecutorSpec.waits_supervise.
  destruct (ExecutorSpec.announced_quiet w (command req) rid
              (_validate_timeout s (requested cmd (timeout req)))) as (-> & _).
  assert (Hv : _validate_timeout s (requested cmd (timeout req)) = t).
  { unfold timeout_in_bounds in Hb. rewrite Ht in *. cbn [requested].
    apply andb_true_iff in Hb as [H1 H2]. apply Z.leb_le in H1, H2.
    rewrite ExecutorSpec.validate_timeout_cases.
    destruct (Z.ltb_spec t 1); lia. }
  rewrite Hv. reflexivity.
Qed.

(** An unknown command, or a mode other than "sync", is answered with 400
    by the route itself: the executor is not called, so the trace holds log
    lines only, no gate and no child. *)
Theorem route_guards repr_args s reg w req rid :
  let resp := fst (execute_route repr_args s reg w req rid) in
  let tr := snd (execute_route repr_args s reg w req rid) in
  (is_valid_command reg (command req) = false ->
   resp = InvalidCommand rid (command req)
            ("Command '" +:+ command req +:+ "' not found in registry")
            (available_commands reg)
   /\ status_code_of resp = 400 /\ forallb is_log tr = true)
  /\ (is_valid_command reg (command req) = true -> mode req <> "sync" ->
      resp = InvalidMode rid /\ status_code_of resp = 400 /\ forallb is_log tr = true).
Proof.
  cbv zeta. unfold execute_route. split.
  - intros ->. cbn [negb fst snd]. repeat split.
  - intros -> Hmode. cbn [negb].
    destruct (String.eqb_spec (mode req) "sync") as [E|_]; [contradiction|].
    cbn [negb fst snd]. repeat split.
Qed.

End RouteSpec.

Module GatewayExamples.
Import Text Executor ExecutorInputs ExecutorTraces Gateway.

Lemma middleware_forwards_iff_witness :
  fst (api_key_middleware two_hosts from_known_host "4f1e") = Forwarded
  /\ fst (api_key_middleware two_hosts
            {| method := "POST"; path := "/api/v1/commands/execute";
               client_host := "10.0.0.7"; api_key_header := Some "s3cret-key-0001" |} "4f1e")
     = Refused 403 "FORBIDDEN" "Access denied: IP not whitelisted".
Proof.
  destruct (GatewaySpec.middleware_forwards_iff two_hosts from_known_host "4f1e")
    as ([_ Hin] & _).
  destruct (GatewaySpec.middleware_forwards_iff two_hosts
              {| method := "POST"; path := "/api/v1/commands/execute";
                 client_host := "10.0.0.7"; api_key_header := Some "s3cret-key-0001" |} "4f1e")
    as (_ & Hout & _).
  split.
  - apply Hin. right. split; [|split; [reflexivity | discriminate]].
    right. change (get_allowed_ips two_hosts) with ["10.0.0.5"; "10.0.0.6"].
    apply elem_of_cons. right. apply list_elem_of_here.
  - apply Hout.
    + intros H. apply GatewaySpec.member_true in H. discriminate H.
    + discriminate.
    + intros H. apply GatewaySpec.member_true in H. discriminate H.
Defined.

Lemma route_status_table_witness :
  fst (execute_route braces settings whitelisted overrun clear_request "4f1e")
  = ExecutionError 408 EXECUTION_TIMEOUT "4f1e" "send_clear"
      "Command exceeded timeout of 90s" None 60000 1000 61000.
Proof.
  pose proof (RouteSpec.route_status_table braces settings whitelisted overrun
                clear_request "4f1e" send_clear) as H.
  apply H; (reflexivity || (vm_compute; reflexivity)).
Defined.

Lemma route_timeout_passthrough_witness :
  waits (snd (execute_route braces settings whitelisted in_time clear_request "4f1e")) = [90].
Proof.
  apply (RouteSpec.route_timeout_passthrough braces settings whitelisted in_time
           clear_request "4f1e" send_clear 90).
  - vm_compute. reflexivity.
  - reflexivity.
  - reflexivity.
  - reflexivity.
  - reflexivity.
  - reflexivity.
  - simpl. lia.
Defined.

Lemma route_guards_witness :
  status_code_of (fst (execute_route braces settings whitelisted in_time
                         {| command := "reboot"; args := []; timeout := None;
                            mode := "sync" |} "4f1e")) = 400
  /\ fst (execute_route braces settings whitelisted in_time
            {| command := "send_clear"; args := []; timeout := None;
               mode := "async" |} "4f1e") = InvalidMode "4f1e".
Proof.
  destruct (RouteSpec.route_guards braces settings whitelisted in_time
              {| command := "reboot"; args := []; timeout := None; mode := "sync" |} "4f1e")
    as [Hunknown _].
  destruct (RouteSpec.route_guards braces settings whitelisted in_time
              {| command := "send_clear"; args := []; timeout := None; mode := "async" |}
              "4f1e") as [_ Hmode].
  split.
  - apply Hunknown. vm_compute. reflexivity.
  - apply Hmode; [vm_compute; reflexivity | discriminate].
Defined.

End GatewayExamples.
